(** * Nyx: the points ledger (cogs/memory.py) and the session start
      command (cogs/asylumchat.py)

    The development embeds the [Memory] cog, the store of "Nyx Notes"
    (points per user), as executable Rocq functions: the in-memory
    dict, the three files it persists to, the exceptions the file
    operations can raise and the handlers that swallow them.  It then
    embeds the lock discipline of the two mutation coroutines as an
    interleaving semantics, and the [!asylumchat] command as the two
    stretches it runs in on the bot-wide session dict.  Further on come the [!leaderboard]
    command, the award of the points of an unscramble game
    (cogs/unscramble.py), and the choice of a mode and the end of a
    session (cogs/asylumchat.py).

    What is taken from the libraries rather than from the cogs:
    - a file is known by what [str.strip] and [json.loads] make of its
      text, and [json.loads] reads back what [json.dumps] wrote;
    - [os.rename] replaces its target and is atomic, and a call that
      raises has changed nothing but a file it was writing;
    - a [str] is known by its code points; [int] of a [str] and
      [str.strip] are those of CPython 3.11, with the whitespace and
      the decimal digits of Unicode 14;
    - the event loop may change task wherever a coroutine awaits, and
      the lock is a plain mutex. *)

From Stdlib Require Import ZArith List String Ascii Lia Bool QArith DecimalString.
From Stdlib Require Import DecimalPos.
From stdpp Require Import gmap strings list sorting.

Set Warnings "-register-all,-clear-no-such-hyp".
Local Open Scope Z_scope.
Local Open Scope string_scope.
Local Open Scope list_scope.

(* ================================================================== *)
(** * Python builtins used by the cogs                                 *)
(* ================================================================== *)

Module Py.

(** The exception classes that occur in the modelled code.  All of them
    derive from [Exception]; [JSONDecodeError] derives from
    [ValueError]. *)
Inductive exn : Type :=
| ValueError
| TypeError
| OverflowError
| OSError
| JSONDecodeError.

Definition exn_eqb (a b : exn) : bool :=
  match a, b with
  | ValueError, ValueError | TypeError, TypeError
  | OverflowError, OverflowError | OSError, OSError
  | JSONDecodeError, JSONDecodeError => true
  | _, _ => false
  end.

(** The value of a pure builtin call: a result, or a raised exception. *)
Inductive result (A : Type) : Type :=
| Ok (a : A)
| Raise (e : exn).
Arguments Ok {A} a.
Arguments Raise {A} e.

(** ** [str(n)] for an [int] *)

Definition str_int (n : Z) : string := NilZero.string_of_int (Z.to_int n).

(** ** [str]

    A [str] is a sequence of code points.  It is kept here by the
    bytes of its UTF-8 form (a lone surrogate, which [json.loads] can
    return, by the three bytes the scheme gives it), so two [str] are
    equal exactly when their bytes are.  [code_points] reads the code
    points back, each with the bytes it takes; a byte that begins no
    code point stands for no character, and is given a number past the
    last code point. *)

Definition is_cont (b : ascii) : bool :=
  let n := N_of_ascii b in ((128 <=? n) && (n <=? 191))%N.

Definition cont_bits (b : ascii) : N := (N_of_ascii b - 128)%N.

Fixpoint code_points (bs : list ascii) : list (N * list ascii) :=
  match bs with
  | [] => []
  | b0 :: r0 =>
      let n0 := N_of_ascii b0 in
      let stray := ((1114112 + n0)%N, [b0]) :: code_points r0 in
      if (n0 <? 128)%N then (n0, [b0]) :: code_points r0
      else
        match r0 with
        | [] => stray
        | b1 :: r1 =>
            if (n0 <? 224)%N
            then
              let cp := ((n0 - 192) * 64 + cont_bits b1)%N in
              if ((192 <=? n0)%N && is_cont b1 && (128 <=? cp)%N)%bool
              then (cp, [b0; b1]) :: code_points r1
              else stray
            else
              match r1 with
              | [] => stray
              | b2 :: r2 =>
                  if (n0 <? 240)%N
                  then
                    let cp :=
                      (((n0 - 224) * 64 + cont_bits b1) * 64 + cont_bits b2)%N in
                    if (is_cont b1 && is_cont b2 && (2048 <=? cp)%N)%bool
                    then (cp, [b0; b1; b2]) :: code_points r2
                    else stray
                  else
                    match r2 with
                    | [] => stray
                    | b3 :: r3 =>
                        let cp :=
                          ((((n0 - 240) * 64 + cont_bits b1) * 64
                            + cont_bits b2) * 64 + cont_bits b3)%N in
                        if ((n0 <? 248)%N && is_cont b1 && is_cont b2
                            && is_cont b3 && (65536 <=? cp)%N
                            && (cp <? 1114112)%N)%bool
                        then (cp, [b0; b1; b2; b3]) :: code_points r3
                        else stray
                    end
              end
        end
  end.

(** [c.isspace()] for a character: the whitespace of Unicode. *)
Definition isspace (cp : N) : bool :=
  ((9 <=? cp) && (cp <=? 13) || (28 <=? cp) && (cp <=? 32)
   || (cp =? 133) || (cp =? 160) || (cp =? 5760)
   || (8192 <=? cp) && (cp <=? 8202)
   || (cp =? 8232) || (cp =? 8233) || (cp =? 8239) || (cp =? 8287)
   || (cp =? 12288))%N.

(** The digit zero of each run of ten decimal digits (the characters
    of category Nd, as Unicode 14 and CPython 3.11 have them). *)
Definition DIGIT_ZEROS : list N :=
  [48; 1632; 1776; 1984; 2406; 2534; 2662; 2790; 2918; 3046; 3174;
   3302; 3430; 3558; 3664; 3792; 3872; 4160; 4240; 6112; 6160; 6470;
   6608; 6784; 6800; 6992; 7088; 7232; 7248; 42528; 43216; 43264;
   43472; 43504; 43600; 44016; 65296; 66720; 68912; 69734; 69872;
   69942; 70096; 70384; 70736; 70864; 71248; 71360; 71472; 71904;
   72016; 72784; 73040; 73120; 92768; 92864; 93008; 120782; 120792;
   120802; 120812; 120822; 123200; 123632; 125264; 130032]%N.

(** The value of a decimal digit of any script. *)
Definition decimal_value (cp : N) : option N :=
  match List.find (fun z => ((z <=? cp) && (cp <? z + 10))%N) DIGIT_ZEROS with
  | Some z => Some (cp - z)%N
  | None => None
  end.

(** ** [s.strip()]: the whitespace characters at both ends go. *)

Fixpoint lstrip_chars (cs : list (N * list ascii)) : list (N * list ascii) :=
  match cs with
  | c :: cs' => if isspace (fst c) then lstrip_chars cs' else cs
  | [] => []
  end.

Definition str_strip (s : string) : string :=
  let cs := code_points (list_ascii_of_string s) in
  let kept := rev (lstrip_chars (rev (lstrip_chars cs))) in
  string_of_list_ascii (List.concat (map snd kept)).

(** ** [int(s)] for a [str]

    [int] first writes the string in ASCII: a character below 127
    stays, any other whitespace character becomes a blank, any other
    decimal digit becomes its ASCII digit, and anything else ends the
    conversion with [ValueError].  The ASCII text is then read in base
    ten: the whitespace of C at both ends is skipped, one sign is
    allowed, and the digits may be grouped by single underscores.
    Python's limit on the number of digits is not modelled. *)

Definition to_ascii (cp : N) : option ascii :=
  if (cp <? 127)%N then Some (ascii_of_N cp)
  else if isspace cp then Some " "%char
  else
    match decimal_value cp with
    | Some d => Some (ascii_of_N (48 + d))
    | None => None
    end.

Fixpoint transform (cs : list (N * list ascii)) : option (list ascii) :=
  match cs with
  | [] => Some []
  | c :: cs' =>
      match to_ascii (fst c), transform cs' with
      | Some a, Some r => Some (a :: r)
      | _, _ => None
      end
  end.

(** The whitespace of C: tab to carriage return, and the blank. *)
Definition is_space (c : ascii) : bool :=
  let n := nat_of_ascii c in
  ((9 <=? n) && (n <=? 13) || (n =? 32))%nat.

Definition digit_val (c : ascii) : option Z :=
  let n := nat_of_ascii c in
  if ((48 <=? n) && (n <=? 57))%nat then Some (Z.of_nat n - 48) else None.

Fixpoint lstrip (cs : list ascii) : list ascii :=
  match cs with
  | c :: cs' => if is_space c then lstrip cs' else cs
  | [] => []
  end.

Definition strip (cs : list ascii) : list ascii :=
  rev (lstrip (rev (lstrip cs))).

(** [digits after_digit acc cs]: the value of the digit string [cs]
    continuing [acc]; an underscore must stand between two digits. *)
Fixpoint digits (after_digit : bool) (acc : Z) (cs : list ascii) : option Z :=
  match cs with
  | [] => if after_digit then Some acc else None
  | c :: cs' =>
      match digit_val c with
      | Some d => digits true (10 * acc + d) cs'
      | None =>
          if (Ascii.eqb c "_" && after_digit)%bool
          then digits false acc cs'
          else None
      end
  end.

(** The ASCII text, once stripped. *)
Definition parse_body (cs : list ascii) : option Z :=
  match cs with
  | "-"%char :: cs => option_map Z.opp (digits false 0 cs)
  | "+"%char :: cs => digits false 0 cs
  | cs => digits false 0 cs
  end.

Definition int_str (s : string) : result Z :=
  match transform (code_points (list_ascii_of_string s)) with
  | None => Raise ValueError
  | Some text =>
      match parse_body (strip text) with
      | Some z => Ok z
      | None => Raise ValueError
      end
  end.

(** ** What [json.loads] returns *)

(** A Python float, by its exact value. *)
Inductive pyfloat : Type :=
| Finite (q : Q)
| NaN
| Inf (negative : bool).

Inductive json : Type :=
| JNull
| JBool (b : bool)
| JInt (z : Z)
| JFloat (f : pyfloat)
| JStr (s : string)
| JArr (items : list json)
| JObj (members : list (string * json)).

(** [isinstance(v, dict)] *)
Definition is_dict (v : json) : bool :=
  match v with JObj _ => true | _ => false end.

(** ** [int(v)] for a decoded JSON value *)
Definition int_json (v : json) : result Z :=
  match v with
  | JNull => Raise TypeError
  | JBool b => Ok (if b then 1 else 0)
  | JInt z => Ok z
  | JFloat (Finite q) => Ok (Z.quot (Qnum q) (Zpos (Qden q)))
  | JFloat NaN => Raise ValueError
  | JFloat (Inf _) => Raise OverflowError
  | JStr s => int_str s
  | JArr _ => Raise TypeError
  | JObj _ => Raise TypeError
  end.

(** ** [dict] with [str] keys

    A dict keeps its items in insertion order, and [get_leaderboard]
    sorts them with a stable sort, so the order is part of the model:
    a dict is the list of its items. *)
Definition dict (V : Type) : Type := list (string * V).

(** [d.get(k)] *)
Fixpoint dict_get {V} (d : dict V) (k : string) : option V :=
  match d with
  | [] => None
  | (k', v) :: d' => if String.eqb k' k then Some v else dict_get d' k
  end.

(** [d.get(k, dflt)] *)
Definition dict_get_or {V} (d : dict V) (k : string) (dflt : V) : V :=
  match dict_get d k with Some v => v | None => dflt end.

(** [d[k] = v]: an existing key keeps its place, a new one goes last. *)
Fixpoint dict_set {V} (d : dict V) (k : string) (v : V) : dict V :=
  match d with
  | [] => [(k, v)]
  | (k', v') :: d' =>
      if String.eqb k' k then (k', v) :: d' else (k', v') :: dict_set d' k v
  end.

(** A list of items is a dict when no key repeats. *)
Definition wf_dict {V} (d : dict V) : Prop := NoDup d.*1.

(** ** [sorted(l, key=..., reverse=True)]

    Python's sort is stable, also with [reverse=True]: items with
    equal keys keep the order they had in [l]. *)
Fixpoint insert_desc {A} (key : A -> Z) (x : A) (l : list A) : list A :=
  match l with
  | [] => [x]
  | y :: l' =>
      if Z.leb (key y) (key x) then x :: y :: l' else y :: insert_desc key x l'
  end.

Definition sorted_desc {A} (key : A -> Z) (l : list A) : list A :=
  foldr (insert_desc key) [] l.

(** ** [l[:n]] *)
Definition slice_to {A} (l : list A) (n : Z) : list A :=
  if Z.leb 0 n then take (Z.to_nat n) l
  else take (Z.to_nat (Z.of_nat (length l) + n)) l.

End Py.

Import Py.

(* ================================================================== *)
(** * cogs/memory.py: the [Memory] cog                                 *)
(* ================================================================== *)

Module Memory.

(** ** The files *)

(** [self.notes_file], [self.backup_file] and the [temp_file] of
    [save_notes] (all three in [STORAGE_PATH]). *)
Inductive path : Type :=
| NotesFile
| BackupFile
| TempFile.

(** The text of a file, by what [load_notes] can tell about it:
    [data.strip()] is empty; [json.loads(data)] raises; the text is a
    proper, non-blank prefix of a text some write did not finish; or
    [json.loads(data)] returns a value. *)
Inductive file_data : Type :=
| Blank
| Malformed
| Torn
| Doc (j : json).

Record files : Type := Files {
  notes_file : option file_data;
  backup_file : option file_data;
  temp_file : option file_data
}.

Definition file_at (fs : files) (p : path) : option file_data :=
  match p with
  | NotesFile => notes_file fs
  | BackupFile => backup_file fs
  | TempFile => temp_file fs
  end.

Definition put_file (fs : files) (p : path) (c : option file_data) : files :=
  match p with
  | NotesFile => Files c (backup_file fs) (temp_file fs)
  | BackupFile => Files (notes_file fs) c (temp_file fs)
  | TempFile => Files (notes_file fs) (backup_file fs) c
  end.

(** ** The environment *)

(** The calls that reach the operating system and can raise. *)
Inductive syscall : Type :=
| Makedirs
| OpenW (p : path)
| WriteText (p : path) (j : json)
| ReadText (p : path)
| Remove (p : path)
| Rename (src dst : path).

(** What the environment does to one such call: it lets it through, or
    it makes it raise [OSError].  A call that raises has had no effect,
    except a write that was under way ([partial]), which leaves a torn
    file. *)
Inductive io_event : Type :=
| IoOk
| IoFail (partial : bool).

(** The records of [self.logger] at the levels warning and error. *)
Inductive log_entry : Type :=
| ErrSaveFailed (e : exn)
| ErrRestoreFailed (e : exn)
| WarnInvalidData (user_id : string) (points : json)
| ErrInvalidStructure (p : path)
| WarnEmptyFile (p : path)
| ErrJSONDecode (p : path)
| ErrLoadFailed (p : path) (e : exn).

(** The cog ([self.notes], [self._loaded]) and its environment: the
    files; the events still to come (none left: every call goes
    through); the calls made so far; every content the files have had
    since, each of them what a crash at that moment leaves behind; and
    the log written so far. *)
Record state : Type := State {
  notes : dict Z;
  _loaded : bool;
  disk : files;
  script : list io_event;
  calls : list syscall;
  seen : list files;
  log : list log_entry
}.

Definition with_notes (n : dict Z) (st : state) : state :=
  State n (_loaded st) (disk st) (script st) (calls st) (seen st) (log st).
Definition with_loaded (b : bool) (st : state) : state :=
  State (notes st) b (disk st) (script st) (calls st) (seen st) (log st).
Definition with_disk (fs : files) (st : state) : state :=
  State (notes st) (_loaded st) fs (script st) (calls st) (seen st ++ [fs]) (log st).
Definition with_script (s : list io_event) (st : state) : state :=
  State (notes st) (_loaded st) (disk st) s (calls st) (seen st) (log st).
Definition with_calls (c : list syscall) (st : state) : state :=
  State (notes st) (_loaded st) (disk st) (script st) c (seen st) (log st).
Definition with_log (l : list log_entry) (st : state) : state :=
  State (notes st) (_loaded st) (disk st) (script st) (calls st) (seen st) l.

(** The effect of a call on one file. *)
Definition write_file (p : path) (c : option file_data) (st : state) : state :=
  with_disk (put_file (disk st) p c) st.

(** ** Coroutines as state transformers *)

(** A coroutine of the cog takes the state to how the call ends (it
    returns or it raises) and the state it leaves. *)
Definition M (A : Type) : Type := state -> result A * state.

Definition ret {A} (a : A) : M A := fun st => (Ok a, st).

Definition bind {A B} (m : M A) (k : A -> M B) : M B :=
  fun st =>
    match m st with
    | (Ok a, st') => k a st'
    | (Raise e, st') => (Raise e, st')
    end.

Definition raise {A} (e : exn) : M A := fun st => (Raise e, st).

Definition lift {A} (r : result A) : M A := fun st => (r, st).

Definition gets {A} (f : state -> A) : M A := fun st => (Ok (f st), st).
Definition modify (f : state -> state) : M unit := fun st => (Ok tt, f st).

Declare Scope py_scope.
Delimit Scope py_scope with py.
Notation "x <- y ;; z" := (bind y (fun x => z))
  (at level 100, y at level 99, z at level 200, only parsing,
   right associativity) : py_scope.
Notation "y ;; z" := (bind y (fun _ => z))
  (at level 100, z at level 200, only parsing, right associativity) : py_scope.
Local Open Scope py_scope.

(** [isinstance(e, cls)] *)
Definition isinstance (e cls : exn) : bool :=
  exn_eqb e cls || (exn_eqb e JSONDecodeError && exn_eqb cls ValueError).

(** [try: body  except Exception as e: handler e] *)
Definition try_except {A} (body : M A) (handler : exn -> M A) : M A :=
  fun st =>
    match body st with
    | (Raise e, st') => handler e st'
    | r => r
    end.

(** [try: body  except (c1, c2, ...): handler] *)
Definition try_except_of {A} (classes : list exn) (body : M A) (handler : M A) : M A :=
  fun st =>
    match body st with
    | (Raise e, st') =>
        if existsb (isinstance e) classes then handler st' else (Raise e, st')
    | r => r
    end.

Definition logger (entry : log_entry) : M unit :=
  modify (fun st => with_log (log st ++ [entry]) st).

(** ** The calls to the operating system *)

(** The call is recorded and the next event of the script is taken. *)
Definition enter (c : syscall) : M io_event :=
  fun st =>
    let st' := with_calls (calls st ++ [c]) st in
    match script st with
    | [] => (Ok IoOk, st')
    | ev :: rest => (Ok ev, with_script rest st')
    end.

(** A call with one atomic effect [act]. *)
Definition atomic_call {A} (c : syscall) (act : M A) : M A :=
  ev <- enter c;;
  match ev with
  | IoOk => act
  | IoFail _ => raise OSError
  end.

(** [os.path.exists(p)]: raises nothing. *)
Definition os_path_exists (p : path) : M bool :=
  gets (fun st => match file_at (disk st) p with Some _ => true | None => false end).

(** [os.makedirs(os.path.dirname(self.notes_file), exist_ok=True)] *)
Definition os_makedirs : M unit := atomic_call Makedirs (ret tt).

(** [os.remove(p)] *)
Definition os_remove (p : path) : M unit :=
  atomic_call (Remove p)
    (e <- os_path_exists p;;
     if e then modify (write_file p None) else raise OSError).

(** [os.rename(src, dst)]: [dst] is replaced if it is there. *)
Definition os_rename (src dst : path) : M unit :=
  atomic_call (Rename src dst)
    (c <- gets (fun st => file_at (disk st) src);;
     match c with
     | Some data =>
         modify (fun st =>
           with_disk (put_file (put_file (disk st) dst (Some data)) src None) st)
     | None => raise OSError
     end).

(** [aiofiles.open(p, 'w', encoding='utf-8')]: the file is created or
    emptied. *)
Definition aio_open_w (p : path) : M unit :=
  atomic_call (OpenW p)
    (modify (write_file p (Some Blank))).

(** [await f.write(json.dumps(v, indent=2, ensure_ascii=False))] and
    the closing of [f].  The text reaches the file piece by piece, so
    the file is torn while the write is under way; once it is through,
    the text on disk is the one [json.loads] reads back as [v]. *)
Definition aio_write (p : path) (v : json) : M unit :=
  ev <- enter (WriteText p v);;
  match ev with
  | IoOk =>
      modify (write_file p (Some Torn));;
      modify (write_file p (Some (Doc v)))
  | IoFail partial =>
      (if partial then modify (write_file p (Some Torn)) else ret tt);;
      raise OSError
  end.

(** [aiofiles.open(p, 'r', encoding='utf-8')] and [await f.read()] *)
Definition aio_read (p : path) : M file_data :=
  atomic_call (ReadText p)
    (c <- gets (fun st => file_at (disk st) p);;
     match c with
     | Some data => ret data
     | None => raise OSError
     end).

(** ** The cog's coroutines *)

(** [self.notes] as [json.dumps] sees it. *)
Definition json_of_notes (n : dict Z) : json :=
  JObj (map (fun kv => (fst kv, JInt (snd kv))) n).

Definition save_notes : M unit :=
  try_except
    (os_makedirs;;
     aio_open_w TempFile;;
     n <- gets notes;;
     aio_write TempFile (json_of_notes n);;
     e <- os_path_exists NotesFile;;
     (if e
      then (b <- os_path_exists BackupFile;;
            (if b then os_remove BackupFile else ret tt);;
            os_rename NotesFile BackupFile)
      else ret tt);;
     os_rename TempFile NotesFile)
    (fun e =>
       logger (ErrSaveFailed e);;
       b <- os_path_exists BackupFile;;
       n <- os_path_exists NotesFile;;
       if b && negb n
       then try_except (os_rename BackupFile NotesFile)
                       (fun restore_error => logger (ErrRestoreFailed restore_error))
       else ret tt).

(** [self.notes[k] = v] *)
Definition notes_setitem (k : string) (v : Z) : M unit :=
  modify (fun st => with_notes (dict_set (notes st) k v) st).

(** The loop over [loaded_notes.items()]; [str(user_id)] of a key of a
    decoded object is the key. *)
Fixpoint load_items (items : list (string * json)) : M unit :=
  match items with
  | [] => ret tt
  | (user_id, points) :: rest =>
      try_except_of [ValueError; TypeError]
        (v <- lift (int_json points);; notes_setitem user_id v)
        (logger (WarnInvalidData user_id points));;
      load_items rest
  end.

(** One turn of the loop over the two paths; [true] when the turn
    ended in [return]. *)
Definition load_from (file_path : path) : M bool :=
  e <- os_path_exists file_path;;
  if negb e then ret false
  else
    try_except
      (data <- aio_read file_path;;
       match data with
       | Blank => logger (WarnEmptyFile file_path);; ret false
       | Malformed | Torn => raise JSONDecodeError
       | Doc (JObj items) =>
           modify (with_notes []);;
           load_items items;;
           modify (with_loaded true);;
           ret true
       | Doc _ => logger (ErrInvalidStructure file_path);; ret false
       end)
      (fun e =>
         if isinstance e JSONDecodeError
         then logger (ErrJSONDecode file_path);; ret false
         else logger (ErrLoadFailed file_path e);; ret false).

Fixpoint load_loop (paths : list path) : M bool :=
  match paths with
  | [] => ret false
  | file_path :: rest =>
      returned <- load_from file_path;;
      if returned then ret true else load_loop rest
  end.

Definition load_notes : M unit :=
  returned <- load_loop [NotesFile; BackupFile];;
  if returned then ret tt
  else modify (with_notes []);; modify (with_loaded true).

(** [if not self._loaded: await self.load_notes()] *)
Definition ensure_loaded : M unit :=
  l <- gets _loaded;;
  if negb l then load_notes else ret tt.

Definition add_nyx_notes (user_id amount : Z) : M Z :=
  ensure_loaded;;
  let user_id_str := str_int user_id in
  old_total <- gets (fun st => dict_get_or (notes st) user_id_str 0);;
  let new_total := Z.max 0 (old_total + amount) in
  notes_setitem user_id_str new_total;;
  save_notes;;
  ret new_total.

Definition get_nyx_notes (user_id : Z) : M Z :=
  ensure_loaded;;
  gets (fun st => dict_get_or (notes st) (str_int user_id) 0).

Definition set_nyx_notes (user_id amount : Z) : M Z :=
  ensure_loaded;;
  let user_id_str := str_int user_id in
  let amount := Z.max 0 amount in
  notes_setitem user_id_str amount;;
  save_notes;;
  ret amount.

(** [[(int(uid), points) for uid, points in self.notes.items()]] *)
Fixpoint int_keys (items : list (string * Z)) : result (list (Z * Z)) :=
  match items with
  | [] => Ok []
  | (uid, points) :: rest =>
      match int_str uid with
      | Raise e => Raise e
      | Ok u =>
          match int_keys rest with
          | Raise e => Raise e
          | Ok l => Ok ((u, points) :: l)
          end
      end
  end.

Definition get_leaderboard (limit : Z) : M (list (Z * Z)) :=
  ensure_loaded;;
  n <- gets notes;;
  pairs <- lift (int_keys n);;
  ret (slice_to (sorted_desc snd pairs) limit).

(** Successive calls [add_nyx_notes(user_id, d)], one for each [d]. *)
Fixpoint add_each (user_id : Z) (amounts : list Z) : M unit :=
  match amounts with
  | [] => ret tt
  | d :: rest => add_nyx_notes user_id d;; add_each user_id rest
  end.

(** A cog as [__init__] leaves it, in a given environment. *)
Definition init (fs : files) (events : list io_event) : state :=
  State [] false fs events [] [] [].

(** A storage directory without files. *)
Definition no_files : files := Files None None None.

End Memory.

Import Memory.
Local Open Scope py_scope.


(* ================================================================== *)
(** * cogs/memory.py: the lock of the cog, with several callers        *)
(* ================================================================== *)

Module Tasks.

(** The statements of [add_nyx_notes] and [set_nyx_notes] that touch
    the lock, the notes or the files.  The event loop runs one task at
    a time and changes task only where a task awaits; the model lets
    it change task between any two of these statements, which covers
    every order the event loop can produce. *)
Inductive instr : Type :=
| Acquire                (* entering [async with self._lock:] *)
| Release                (* leaving the block *)
| Load                   (* [old_total = self.notes.get(user_id_str, 0)] *)
| StoreAdd (amount : Z)  (* [self.notes[user_id_str] = max(0, old_total + amount)] *)
| StoreSet (amount : Z)  (* [self.notes[user_id_str] = max(0, amount)] *)
| Persist.               (* the body of the block of [save_notes] *)

(** [add_nyx_notes(user_id, amount)] on a loaded cog: the block that
    changes the notes, and then [save_notes], which takes the lock
    again for itself. *)
Definition add_code (amount : Z) : list instr :=
  [Acquire; Load; StoreAdd amount; Release; Acquire; Persist; Release].

(** [set_nyx_notes(user_id, amount)] on a loaded cog. *)
Definition set_code (amount : Z) : list instr :=
  [Acquire; Load; StoreSet amount; Release; Acquire; Persist; Release].

(** A call under way: its [user_id], what is left of its code, and its
    local [old_total]. *)
Record task : Type := Task {
  user : Z;
  code : list instr;
  old_total : Z
}.

(** The cog and the calls under way: [self.notes], the task that holds
    [self._lock], the tasks, the notes last written to the notes file,
    the statements run so far, each with its task, and how the saves
    still to come end: [true] for a save that goes through, [false]
    for one that meets an error, which [save_notes] logs and swallows
    with the notes file as it was (none left: every save goes
    through). *)
Record config : Type := Config {
  mem : dict Z;
  owner : option nat;
  pool : list task;
  on_disk : option (dict Z);
  history : list (nat * instr);
  saves : list bool
}.

Definition spawn (call : Z * list instr) : task := Task call.1 call.2 0.

Definition start (n : dict Z) (calls : list (Z * list instr))
    (outcomes : list bool) : config :=
  Config n None (spawn <$> calls) None [] outcomes.

(** Task [i] runs its next statement; [None] when it has none left,
    or waits for the lock. *)
Definition step (i : nat) (c : config) : option config :=
  match pool c !! i with
  | None => None
  | Some t =>
      match code t with
      | [] => None
      | ins :: rest =>
          let k := str_int (user t) in
          let moved := fun (t' : task) (n : dict Z) (o : option nat)
                           (d : option (dict Z)) =>
            Some (Config n o (<[i := t']> (pool c)) d (history c ++ [(i, ins)])
                         (saves c)) in
          let t' := Task (user t) rest (old_total t) in
          match ins with
          | Acquire =>
              match owner c with
              | None => moved t' (mem c) (Some i) (on_disk c)
              | Some _ => None
              end
          | Release =>
              if bool_decide (owner c = Some i)
              then moved t' (mem c) None (on_disk c)
              else None
          | Load =>
              moved (Task (user t) rest (dict_get_or (mem c) k 0))
                    (mem c) (owner c) (on_disk c)
          | StoreAdd amount =>
              moved t' (dict_set (mem c) k (Z.max 0 (old_total t + amount)))
                    (owner c) (on_disk c)
          | StoreSet amount =>
              moved t' (dict_set (mem c) k (Z.max 0 amount)) (owner c) (on_disk c)
          | Persist =>
              match saves c with
              | [] => moved t' (mem c) (owner c) (Some (mem c))
              | ok :: later =>
                  Some (Config (mem c) (owner c) (<[i := t']> (pool c))
                               (if ok then Some (mem c) else on_disk c)
                               (history c ++ [(i, ins)]) later)
              end
          end
      end
  end.

(** The tasks run in the order of a schedule. *)
Fixpoint run (schedule : list nat) (c : config) : option config :=
  match schedule with
  | [] => Some c
  | i :: rest =>
      match step i c with
      | Some c' => run rest c'
      | None => None
      end
  end.

(** Every call has returned. *)
Definition finished (c : config) : Prop := Forall (fun t => code t = []) (pool c).

End Tasks.

(* ================================================================== *)
(** * cogs/asylumchat.py: starting a session                           *)
(* ================================================================== *)

Module AsylumChat.

Definition ASYLUM_CHANNEL_IDS : list Z :=
  [1388158646973632685; 1388397019479146580; 1392039676092878888;
   1388163527222493194; 1391136833018138714; 1391641411929247764;
   1392813388286918696; 1392517005608751174].

(** A record of [bot.active_sessions], with the keys the cogs give it;
    [active] is the truth value of [session.get("active")] (false for
    a record without the key), and [started_at] a point in time. *)
Record session : Type := Session {
  type : string;
  channel_id : Z;
  state : string;
  active : bool;
  started_at : Z;
  messages : list string;
  mode : option string;
  initiator : Z
}.

(** [bot.active_sessions]: the dict all cogs share.  The keys of this
    cog are strings; the integer keys of other cogs equal none of them. *)
Abbreviation registry := (gmap string session).

(** What the command sends to the channel. *)
Inductive reply : Type :=
| OnlyInAsylumChannels   (* "This command can only be used in Asylum chat channels." *)
| ActiveSession          (* "A chat session is already active in this channel. ..." *)
| ChoosePersona.         (* the embed of the four modes *)

(** [f"asylum-{channel.id}"] *)
Definition session_key (channel : Z) : string :=
  String.append "asylum-" (str_int channel).

(** The record the command creates. *)
Definition new_session (channel author now : Z) : session :=
  Session "asylumchat" channel "selecting_mode" true now [] None author.

(** The command [!asylumchat], sent by [author] in [channel], runs in
    two stretches: the event loop can run other handlers where the
    command awaits [safe_send], which raises nothing (so the handler of
    the [try] never runs).

    The first stretch is the test of the channel and the guard;
    [None] when the command goes on to send the menu of the modes. *)
Definition asylumchat_guard (channel : Z) (active_sessions : registry)
  : option reply :=
  if negb (existsb (Z.eqb channel) ASYLUM_CHANNEL_IDS)
  then Some OnlyInAsylumChannels
  else
    match active_sessions !! session_key channel with
    | Some s => if active s then Some ActiveSession else None
    | None => None
    end.

(** The second stretch, once the menu is sent: the record is written,
    at the time [now]. *)
Definition asylumchat_create (channel author now : Z)
    (active_sessions : registry) : registry :=
  <[session_key channel := new_session channel author now]> active_sessions.

(** The command when no other handler runs while it awaits. *)
Definition asylumchat (channel author now : Z) (active_sessions : registry)
  : reply * registry :=
  match asylumchat_guard channel active_sessions with
  | Some r => (r, active_sessions)
  | None => (ChoosePersona, asylumchat_create channel author now active_sessions)
  end.

(** ** Several starts under way

    Where a start stands: before its guard, sending the menu, or
    done with its reply. *)
Inductive stage : Type :=
| Guard
| Send
| Replied (r : reply).

Record start_call : Type := StartCall {
  in_channel : Z;
  by_author : Z;
  at_time : Z;
  stage_of : stage
}.

(** Start [i] runs its next stretch; [None] when it is done. *)
Definition start_step (i : nat) (c : list start_call * registry)
  : option (list start_call * registry) :=
  match c.1 !! i with
  | None => None
  | Some call =>
      let moved := fun (st : stage) (sessions : registry) =>
        Some (<[i := StartCall (in_channel call) (by_author call)
                               (at_time call) st]> c.1, sessions) in
      match stage_of call with
      | Guard =>
          match asylumchat_guard (in_channel call) c.2 with
          | Some r => moved (Replied r) c.2
          | None => moved Send c.2
          end
      | Send =>
          moved (Replied ChoosePersona)
                (asylumchat_create (in_channel call) (by_author call)
                                   (at_time call) c.2)
      | Replied _ => None
      end
  end.

(** The starts run in the order of a schedule. *)
Fixpoint run_starts (schedule : list nat) (c : list start_call * registry)
  : option (list start_call * registry) :=
  match schedule with
  | [] => Some c
  | i :: rest =>
      match start_step i c with
      | Some c' => run_starts rest c'
      | None => None
      end
  end.

End AsylumChat.


(* ================================================================== *)
(** * cogs/memory.py: the [!leaderboard] command                       *)
(* ================================================================== *)

Module MemoryCommands.

(** A user of the bot's cache, by the two names the command reads. *)
Record user : Type := User {
  global_name : option string;
  name : string
}.

(** What the command reads of its context: [self.bot.get_user], which
    looks a user up in the cache, and [ctx.guild] (none outside a
    guild) with its [get_member], which gives a member by their
    [display_name]. *)
Record context : Type := Ctx {
  get_user : Z -> result (option user);
  guild : option (Z -> result (option string))
}.

(** [user.global_name or user.name] *)
Definition global_name_or_name (u : user) : string :=
  match global_name u with
  | Some EmptyString | None => name u
  | Some g => g
  end.

(** The name of a row: ["Unknown User"] unless the lookups, which sit
    in a [try] with a bare [except: pass], assign another. *)
Definition display_name (ctx : context) (user_id : Z) : string :=
  match get_user ctx user_id with
  | Ok (Some u) =>
      match guild ctx with
      | Some get_member =>
          match get_member user_id with
          | Ok (Some member) => member
          | Ok None => global_name_or_name u
          | Raise _ => "Unknown User"
          end
      | None => global_name_or_name u
      end
  | Ok None => "Unknown User"
  | Raise _ => "Unknown User"
  end.

(** The medal of a rank: the three medals, then [f"{i}."]. *)
Inductive medal : Type :=
| Gold
| Silver
| Bronze
| Place (i : Z).

Definition medal_of (i : Z) : medal :=
  if Z.eqb i 1 then Gold
  else if Z.eqb i 2 then Silver
  else if Z.eqb i 3 then Bronze
  else Place i.

(** A line [f"{medal} **{name}** - {points:,}"] and the coin, by its
    three parts. *)
Record line : Type := Line {
  line_medal : medal;
  line_name : string;
  line_points : Z
}.

(** The loop over [enumerate(leaderboard, 1)], from rank [i] on; it
    leaves at [if i >= 10: break]. *)
Fixpoint description_lines (ctx : context) (i : Z) (leaderboard : list (Z * Z))
  : list line :=
  match leaderboard with
  | [] => []
  | (user_id, points) :: rest =>
      let l := Line (medal_of i) (display_name ctx user_id) points in
      if Z.leb 10 i then [l] else l :: description_lines ctx (i + 1) rest
  end.

(** What the command sends: the embed without users, the embed of the
    lines, or, from the handler of its [try], which logs the
    exception, the text of the error. *)
Inductive board_reply : Type :=
| NoUsersFound
| Board (lines : list line)
| ErrorRetrievingLeaderboard (e : exn).

(** The command [!leaderboard limit].  [safe_send] raises nothing. *)
Definition show_leaderboard (ctx : context) (limit : Z) : M board_reply :=
  try_except
    (let limit :=
       if Z.ltb 20 limit then 20
       else if Z.ltb limit 1 then 10
       else limit in
     leaderboard <- get_leaderboard limit;;
     match leaderboard with
     | [] => ret NoUsersFound
     | _ => ret (Board (description_lines ctx 1 leaderboard))
     end)
    (fun e => ret (ErrorRetrievingLeaderboard e)).

End MemoryCommands.

(* ================================================================== *)
(** * cogs/unscramble.py: the points of a game                         *)
(* ================================================================== *)

Module Unscramble.

Definition NYX_NOTES_PER_CORRECT : Z := 5.

(** The loop over [game["user_scores"].items()]: the words each user
    found.  The handler of the inner [try] logs and tells the channel;
    it changes nothing of the cog.  The name the loop looks up after
    each award is used by no statement; the lookups read the bot's
    cache and are taken to raise nothing. *)
Fixpoint award_each (user_scores : list (Z * Z)) : M unit :=
  match user_scores with
  | [] => ret tt
  | (user_id, words_found) :: rest =>
      (if Z.ltb 0 words_found
       then
         let total_points := words_found * NYX_NOTES_PER_CORRECT in
         try_except
           (add_nyx_notes user_id total_points;; ret tt)
           (fun e => ret tt)
       else ret tt);;
      award_each rest
  end.

(** [award_game_points(channel, game)], by [game.get("user_scores")]:
    no such key, or the dict of the scores. *)
Definition award_game_points (user_scores : option (list (Z * Z))) : M unit :=
  try_except
    (match user_scores with
     | None | Some [] => ret tt
     | Some scores => award_each scores
     end)
    (fun e => ret tt).

End Unscramble.

(* ================================================================== *)
(** * cogs/asylumchat.py: choosing a mode, ending a session            *)
(* ================================================================== *)

Module AsylumSessions.
Import AsylumChat.

(** [mode_map] of [process_mode_selection]: [None] for a selection
    that is not one of its keys. *)
Definition mode_map (selection : string) : option string :=
  if String.eqb selection "1" then Some "default"
  else if String.eqb selection "2" then Some "best_friend"
  else if String.eqb selection "3" then Some "psych_analyst"
  else if String.eqb selection "4" then Some "rage_debater"
  else None.

(** What [process_mode_selection] sends: the request to type a number,
    the welcome message of the mode, or nothing, when the handler of
    its [try] logs the [KeyError] of a channel without record. *)
Inductive selection_reply : Type :=
| TypeANumber
| Welcome (selected_mode : string)
| SelectionError.

(** [session.update({"state": "active_chat", "mode": selected_mode})] *)
Definition update_state_mode (s : session) (selected_mode : string) : session :=
  Session (type s) (channel_id s) "active_chat" (active s) (started_at s)
          (messages s) (Some selected_mode) (initiator s).

(** [process_mode_selection(message)], for a message with the text
    [content] in [channel].  All four modes are keys of
    [self.ASYLUM_MODES]. *)
Definition process_mode_selection (channel : Z) (content : string)
    (active_sessions : registry) : selection_reply * registry :=
  let key := session_key channel in
  match active_sessions !! key with
  | None => (SelectionError, active_sessions)
  | Some s =>
      let selection := str_strip content in
      match mode_map selection with
      | None => (TypeANumber, active_sessions)
      | Some selected_mode =>
          (Welcome selected_mode,
           <[key := update_state_mode s selected_mode]> active_sessions)
      end
  end.

(** [end_asylum_session(channel, reason)], by what it does to the
    sessions.  The history of the session is written to its own file
    inside a [try] whose handler only logs, so the [del] is reached
    whether or not the history could be saved. *)
Definition end_asylum_session (channel : Z) (active_sessions : registry)
  : registry :=
  let key := session_key channel in
  match active_sessions !! key with
  | Some s => if active s then delete key active_sessions else active_sessions
  | None => active_sessions
  end.

(** What [!endasylumchat] sends to the channel. *)
Inductive end_reply : Type :=
| EndOnlyInAsylumChannels   (* "This command can only be used in Asylum chat channels." *)
| NoActiveSession           (* "No active AsylumChat session to end." *)
| SessionEnded.             (* "AsylumChat session ended. ..." *)

(** The command [!endasylumchat] in [channel].  [end_asylum_session]
    catches what it raises, so the handler of the [try] never runs. *)
Definition endasylumchat (channel : Z) (active_sessions : registry)
  : end_reply * registry :=
  if negb (existsb (Z.eqb channel) ASYLUM_CHANNEL_IDS)
  then (EndOnlyInAsylumChannels, active_sessions)
  else
    let key := session_key channel in
    match active_sessions !! key with
    | Some s =>
        if active s
        then (SessionEnded, end_asylum_session channel active_sessions)
        else (NoActiveSession, active_sessions)
    | None => (NoActiveSession, active_sessions)
    end.

End AsylumSessions.
(* ================================================================== *)
(** * Facts about the builtins                                         *)
(* ================================================================== *)

Section DictFacts.
Context {V : Type}.
Implicit Types (d : dict V) (k : string) (v : V).

Lemma dict_get_set_eq d k v : dict_get (dict_set d k v) k = Some v.
Proof.
  induction d as [|[k' v'] d IH]; simpl.
  - by rewrite String.eqb_refl.
  - destruct (String.eqb k' k) eqn:E; simpl; rewrite E; done.
Qed.

Lemma dict_get_set_ne d k k' v :
  k <> k' -> dict_get (dict_set d k v) k' = dict_get d k'.
Proof.
  intros Hne. induction d as [|[k0 v0] d IH]; simpl.
  - destruct (String.eqb k k') eqn:E; [|done].
    apply String.eqb_eq in E. done.
  - destruct (String.eqb k0 k) eqn:E; simpl; [|by rewrite IH].
    apply String.eqb_eq in E. subst k0.
    destruct (String.eqb k k') eqn:E'; [|done].
    apply String.eqb_eq in E'. done.
Qed.

Lemma dict_get_or_set_eq d k v dflt : dict_get_or (dict_set d k v) k dflt = v.
Proof. unfold dict_get_or. by rewrite dict_get_set_eq. Qed.

Lemma dict_get_or_set_ne d k k' v dflt :
  k <> k' -> dict_get_or (dict_set d k v) k' dflt = dict_get_or d k' dflt.
Proof. intros. unfold dict_get_or. by rewrite dict_get_set_ne. Qed.

Lemma dict_set_keys_in d k v :
  dict_get d k <> None -> (dict_set d k v).*1 = d.*1.
Proof.
  induction d as [|[k' v'] d IH]; simpl; [done|].
  destruct (String.eqb k' k) eqn:E; [done|].
  intros H. rewrite !fmap_cons. simpl. f_equal. by apply IH.
Qed.

Lemma dict_set_keys_new d k v :
  dict_get d k = None -> (dict_set d k v).*1 = d.*1 ++ [k].
Proof.
  induction d as [|[k' v'] d IH]; simpl; [done|].
  destruct (String.eqb k' k) eqn:E; [done|].
  intros H. rewrite !fmap_cons. simpl. f_equal. by apply IH.
Qed.

Lemma dict_get_None_keys d k : dict_get d k = None <-> k ∉ d.*1.
Proof.
  induction d as [|[k' v'] d IH]; simpl.
  - split; [intros _; apply not_elem_of_nil | done].
  - destruct (String.eqb k' k) eqn:E.
    + apply String.eqb_eq in E. subst. split; [done|].
      intros H. exfalso. apply H. left.
    + apply String.eqb_neq in E. rewrite IH. rewrite not_elem_of_cons. naive_solver.
Qed.

Lemma dict_set_wf d k v : wf_dict d -> wf_dict (dict_set d k v).
Proof.
  unfold wf_dict. intros Hwf.
  destruct (dict_get d k) eqn:E.
  - rewrite dict_set_keys_in; [done|]. by rewrite E.
  - rewrite dict_set_keys_new by done.
    apply NoDup_app. split_and!; [done| |apply NoDup_singleton].
    intros x Hx Hx'. apply list_elem_of_singleton in Hx'. subst.
    by apply dict_get_None_keys in E.
Qed.

Lemma dict_get_Some_in d k v : dict_get d k = Some v -> (k, v) ∈ d.
Proof.
  induction d as [|[k' v'] d IH]; simpl; [done|].
  destruct (String.eqb k' k) eqn:E.
  - apply String.eqb_eq in E. intros [= ->]. subst. left.
  - intros H. right. auto.
Qed.

Lemma dict_in_get d k v : wf_dict d -> (k, v) ∈ d -> dict_get d k = Some v.
Proof.
  unfold wf_dict. induction d as [|[k' v'] d IH]; simpl.
  - intros _ H. by apply not_elem_of_nil in H.
  - intros Hnd Hin. apply NoDup_cons in Hnd as [Hnotin Hnd].
    apply elem_of_cons in Hin as [[= -> ->]|Hin].
    + by rewrite String.eqb_refl.
    + destruct (String.eqb k' k) eqn:E; [|auto].
      apply String.eqb_eq in E. subst. exfalso. apply Hnotin.
      apply list_elem_of_fmap. by exists (k, v).
Qed.

(** Every value [dict_set] leaves in the dict was there, or is the new one. *)
Lemma dict_set_values d k v k' v' :
  (k', v') ∈ dict_set d k v -> (k', v') ∈ d \/ (k' = k /\ v' = v).
Proof.
  induction d as [|[k0 v0] d IH]; simpl.
  - intros H. apply list_elem_of_singleton in H as [= -> ->]. by right.
  - destruct (String.eqb k0 k) eqn:E.
    + apply String.eqb_eq in E. subst.
      intros H. apply elem_of_cons in H as [[= -> ->]|H]; [by right|].
      left. by right.
    + intros H. apply elem_of_cons in H as [[= -> ->]|H]; [left; left|].
      destruct (IH H) as [?|?]; [left; by right|by right].
Qed.

End DictFacts.


(* ================================================================== *)
(** * Facts about the cog                                              *)
(* ================================================================== *)

(** Unfolding the plumbing of a coroutine. *)
Ltac unfold_py :=
  cbv [try_except try_except_of bind ret raise lift gets modify logger enter
       atomic_call os_makedirs os_remove os_rename os_path_exists aio_open_w
       aio_write aio_read notes_setitem
       write_file with_disk with_calls with_script with_log with_notes
       with_loaded file_at put_file
       notes _loaded disk script calls seen log notes_file backup_file temp_file
       fst snd negb andb].

(** Taking the next event of a script that is a variable. *)
Ltac next_event :=
  match goal with
  | |- context [match ?s with [] => _ | _ :: _ => _ end] =>
      is_var s; destruct s as [|[|[|]] ?]
  end.

(** ** [int(points)] *)

Lemma int_str_raises s e : int_str s = Raise e -> e = ValueError.
Proof.
  unfold int_str.
  destruct (transform _); [|by intros [= <-]].
  destruct (parse_body _); [done|]. by intros [= <-].
Qed.

(** What [int] takes and what it refuses.  The separators 28 to 31 are
    whitespace for [str.strip] and not for [int]; a digit of another
    script counts as the ASCII digit; the whitespace of Unicode is
    skipped at the ends. *)
Example int_str_examples :
  let b (l : list nat) := string_of_list_ascii (map ascii_of_nat l) in
  int_str " 1_0 " = Ok 10 /\
  int_str "-007" = Ok (-7) /\
  int_str (b [31; 53]%nat) = Raise ValueError /\
  int_str (b [11; 53; 12]%nat) = Ok 5 /\
  int_str (b [217; 167]%nat) = Ok 7 /\
  int_str (b [194; 160; 45; 239; 188; 145; 226; 128; 131]%nat) = Ok (-1) /\
  int_str (b [194; 178]%nat) = Raise ValueError /\
  int_str "1__0" = Raise ValueError /\
  int_str "+" = Raise ValueError /\
  int_str "a" = Raise ValueError.
Proof. by vm_compute. Qed.

Lemma int_json_raises v e :
  int_json v = Raise e -> e = ValueError \/ e = TypeError \/ e = OverflowError.
Proof.
  destruct v as [|b|z|[q| |n]|s|l|ms]; simpl; try (intros [= <-]; auto); try done.
  intros H. left. by eapply int_str_raises.
Qed.

(** ** [load_notes] *)

(** The entries the loop keeps, with the values it stores for them. *)
Definition kept (items : list (string * json)) : list (string * Z) :=
  omap (fun kv => match int_json kv.2 with
                  | Ok z => Some (kv.1, z)
                  | Raise _ => None
                  end) items.

(** The warnings the loop logs: one for each entry it drops. *)
Definition dropped (items : list (string * json)) : list log_entry :=
  omap (fun kv => match int_json kv.2 with
                  | Ok _ => None
                  | Raise _ => Some (WarnInvalidData kv.1 kv.2)
                  end) items.

(** No value of the object makes [int] overflow (no infinite float). *)
Definition no_overflow (items : list (string * json)) : Prop :=
  Forall (fun kv => int_json kv.2 <> Raise OverflowError) items.

Definition set_all (n : dict Z) (l : list (string * Z)) : dict Z :=
  foldl (fun n kv => dict_set n kv.1 kv.2) n l.

Lemma load_items_spec items : forall st,
  no_overflow items ->
  load_items items st =
    (Ok tt, State (set_all (notes st) (kept items)) (_loaded st) (disk st)
                  (script st) (calls st) (seen st) (log st ++ dropped items)).
Proof.
  induction items as [|[k v] items IH]; intros [n l fs s cs hs lg] Hov.
  - simpl. unfold_py. by rewrite app_nil_r.
  - apply Forall_cons in Hov as [Hv Hov]. simpl in Hv.
    cbn [load_items kept dropped omap list_omap]. simpl.
    unfold bind at 1. unfold try_except_of, bind, lift, notes_setitem, modify.
    destruct (int_json v) as [z|e] eqn:E.
    + rewrite IH by done. reflexivity.
    + destruct (int_json_raises _ _ E) as [->| [->| ->]]; [| |done];
        cbn; rewrite IH by done; cbn; by rewrite <- app_assoc.
Qed.

Lemma set_all_values l : forall (n : dict Z) k z,
  (k, z) ∈ set_all n l -> (k, z) ∈ n \/ (k, z) ∈ l.
Proof.
  induction l as [|[k0 z0] l IH]; intros n k z; simpl; [auto|].
  intros H. apply IH in H as [H|H]; [|right; by right].
  apply dict_set_values in H as [H|[-> ->]]; [by left|right; left].
Qed.

Lemma set_all_wf l : forall (n : dict Z), wf_dict n -> wf_dict (set_all n l).
Proof.
  induction l as [|[k0 z0] l IH]; intros n Hn; simpl; [done|].
  apply IH. by apply dict_set_wf.
Qed.

(** Setting the items of a dict, in their order, in an empty dict
    gives the dict back. *)
Lemma set_all_app (n l : dict Z) :
  wf_dict (n ++ l) -> set_all n l = n ++ l.
Proof.
  revert n. induction l as [|[k z] l IH]; intros n Hwf; simpl.
  - by rewrite app_nil_r.
  - assert (dict_set n k z = n ++ [(k, z)]) as ->.
    { unfold wf_dict in Hwf. rewrite fmap_app in Hwf.
      apply NoDup_app in Hwf as (_ & Hdisj & _).
      assert (k ∉ n.*1) as Hk.
      { intros Hin. apply (Hdisj k Hin). rewrite fmap_cons. left. }
      clear -Hk. induction n as [|[k' v'] n IHn]; simpl; [done|].
      rewrite fmap_cons in Hk. apply not_elem_of_cons in Hk as [Hne Hk].
      simpl in Hne. destruct (String.eqb k' k) eqn:E.
      - apply String.eqb_eq in E. congruence.
      - by rewrite IHn. }
    rewrite IH; rewrite <- app_assoc; done.
Qed.

Lemma set_all_nil (l : dict Z) : wf_dict l -> set_all [] l = l.
Proof. intros. by rewrite set_all_app. Qed.

Lemma kept_in items k z :
  (k, z) ∈ kept items -> exists v, (k, v) ∈ items /\ int_json v = Ok z.
Proof.
  unfold kept. intros H. apply list_elem_of_omap in H as ([k' v] & Hin & Hs).
  simpl in Hs. destruct (int_json v) eqn:E; [|done].
  injection Hs as -> ->. eauto.
Qed.

Lemma kept_keys_sublist items : sublist (kept items).*1 items.*1.
Proof.
  induction items as [|[k v] items IH]; simpl; [constructor|].
  unfold kept. cbn [omap list_omap]. simpl.
  destruct (int_json v); rewrite ?fmap_cons; simpl; by constructor.
Qed.

Lemma kept_wf items : wf_dict items -> wf_dict (kept items).
Proof. unfold wf_dict. intros H. exact (sublist_NoDup _ _ H (kept_keys_sublist items)). Qed.

(** Whatever the values, the loop returns or stops at the first value
    that overflows; it touches neither the files nor [_loaded], and
    every balance it leaves was there or comes from an entry. *)
Lemma load_items_frame items : forall st,
  let r := load_items items st in
  (r.1 = Ok tt \/ r.1 = Raise OverflowError) /\
  _loaded r.2 = _loaded st /\ disk r.2 = disk st /\ script r.2 = script st /\
  calls r.2 = calls st /\ seen r.2 = seen st /\
  forall k z, (k, z) ∈ notes r.2 ->
    (k, z) ∈ notes st \/ exists v, (k, v) ∈ items /\ int_json v = Ok z.
Proof.
  induction items as [|[k v] items IH]; intros [n l fs s cs hs lg].
  - simpl. unfold_py. split_and!; auto.
  - cbn [load_items]. unfold bind at 1.
    unfold try_except_of, bind, lift, notes_setitem, modify.
    destruct (int_json v) as [z|e] eqn:E.
    + specialize (IH (with_notes (dict_set n k z) (State n l fs s cs hs lg))).
      cbn zeta in *. destruct IH as (H1 & H2 & H3 & H4 & H5 & H6 & H7).
      split_and!; try done. intros k' z' Hin.
      apply H7 in Hin as [Hin|(v' & Hin & Hv')].
      * simpl in Hin. apply dict_set_values in Hin as [Hin|[-> ->]]; [by left|].
        right. exists v. split; [left|done].
      * right. exists v'. split; [by right|done].
    + destruct (int_json_raises _ _ E) as [->| [->| ->]]; cbn.
      1,2: specialize (IH (State n l fs s cs hs (lg ++ [WarnInvalidData k v])));
           cbn zeta in *; destruct IH as (H1 & H2 & H3 & H4 & H5 & H6 & H7);
           split_and!; try done; intros k' z' Hin;
           apply H7 in Hin as [Hin|(v' & Hin & Hv')]; [by left|];
           right; exists v'; split; [by right|done].
      split_and!; auto.
Qed.

(** A file [load_notes] passes over: missing, blank, not JSON, or JSON
    that is no object. *)
Definition unusable (c : option file_data) : Prop :=
  match c with
  | None | Some Blank | Some Malformed | Some Torn => True
  | Some (Doc j) => is_dict j = false
  end.

Lemma load_from_unusable p st :
  unusable (file_at (disk st) p) ->
  let r := load_from p st in
  r.1 = Ok false /\ notes r.2 = notes st /\ _loaded r.2 = _loaded st /\
  disk r.2 = disk st /\ seen r.2 = seen st /\
  (script st = [] -> script r.2 = []).
Proof.
  destruct st as [n l [c b t] s cs hs lg]. unfold unusable, load_from.
  destruct p; simpl file_at;
    (match goal with |- match ?x with _ => _ end -> _ => destruct x as [[| | |j]|] end);
    intros Hu; unfold_py; try (destruct s as [|[|?] ?]; cbn; by split_and!);
    try (cbn; by split_and!);
    destruct j; try done; destruct s as [|[|?] ?]; cbn; by split_and!.
Qed.

Lemma load_from_frame p st :
  let r := load_from p st in
  (r.1 = Ok true \/ r.1 = Ok false) /\
  (r.1 = Ok true -> _loaded r.2 = true) /\
  disk r.2 = disk st /\ seen r.2 = seen st /\
  forall k z, (k, z) ∈ notes r.2 ->
    (k, z) ∈ notes st \/
    exists items v, file_at (disk st) p = Some (Doc (JObj items)) /\
                    (k, v) ∈ items /\ int_json v = Ok z.
Proof.
  destruct (file_at (disk st) p) as [[| | |j]|] eqn:Hf.
  1-3,5: (destruct (load_from_unusable p st) as (H1 & H2 & H3 & H4 & H5 & _);
          [by rewrite Hf|]; cbn zeta; rewrite H1, H2, H4, H5;
          split_and!; auto; done).
  destruct j as [|b0|z0|f0|s0|l0|items].
  1-6: (destruct (load_from_unusable p st) as (H1 & H2 & H3 & H4 & H5 & _);
        [by rewrite Hf|]; cbn zeta; rewrite H1, H2, H4, H5;
        split_and!; auto; done).
  destruct st as [n l fs s cs hs lg]. simpl in Hf.
  unfold load_from, os_path_exists, try_except, aio_read, atomic_call, enter.
  cbv [bind gets ret raise modify logger isinstance].
  cbn [disk script calls log with_calls with_script].
  rewrite Hf. cbn [negb].
  destruct s as [|[|?] s];
    cbn [with_script with_calls with_log with_notes script calls disk log
         notes exn_eqb orb andb _loaded seen];
    try rewrite Hf.
  3: { cbn. split_and!; auto; done. }
  all: match goal with |- context [load_items ?its ?st0] =>
      pose proof (load_items_frame its st0) as Hfr;
      destruct (load_items its st0) as [r st1] eqn:Hl end;
    cbn zeta in Hfr; simpl in Hfr;
    destruct Hfr as ([->| ->] & H2 & H3 & H4 & H5 & H6 & H7);
    cbn; (split_and!; [auto|done|done|done|]);
    intros k z Hin; apply H7 in Hin as [Hin|(v & Hin & Hv)];
    solve [by apply not_elem_of_nil in Hin|right; eauto].
Qed.

(** A file that is a JSON object without overflowing values, read
    without an I/O error, ends the loop: the notes are the entries
    [int] accepts, set one after the other in an empty dict. *)
Lemma load_from_doc p st items :
  script st = [] ->
  file_at (disk st) p = Some (Doc (JObj items)) ->
  no_overflow items ->
  load_from p st =
    (Ok true, State (set_all [] (kept items)) true (disk st) []
                    (calls st ++ [ReadText p]) (seen st)
                    (log st ++ dropped items)).
Proof.
  destruct st as [n l fs s cs hs lg]. simpl. intros -> Hf Hov.
  unfold load_from, os_path_exists, try_except, aio_read, atomic_call, enter.
  cbv [bind gets ret raise modify logger isinstance].
  cbn [disk script calls log with_calls with_script].
  rewrite Hf. cbn [negb].
  cbn [with_script with_calls with_log with_notes script calls disk log
       notes exn_eqb orb andb _loaded seen].
  rewrite Hf, load_items_spec by done. reflexivity.
Qed.

(** A value that overflows stops the loop with [OverflowError]: the
    loop ends normally exactly when no value does. *)
Lemma load_items_overflow items : forall st,
  no_overflow items \/ (load_items items st).1 = Raise OverflowError.
Proof.
  induction items as [|[k v] items IH]; intros st.
  - left. constructor.
  - cbn [load_items]. unfold bind at 1.
    unfold try_except_of, bind, lift, notes_setitem, modify.
    destruct (int_json v) as [z|e] eqn:E.
    + match goal with |- context [load_items items ?st0] =>
        destruct (IH st0) as [H|H] end; [left|by right].
      constructor; [simpl; congruence|done].
    + destruct (int_json_raises _ _ E) as [->| [->| ->]]; cbn; [| |by right];
        (match goal with |- context [load_items items ?st0] =>
           destruct (IH st0) as [H|H] end; [left|by right]);
        (constructor; [simpl; congruence|done]).
Qed.

(** With the file read, the loop over the paths ends at a file that
    holds a JSON object exactly when none of its values overflows. *)
Lemma load_from_returns p st items :
  script st = [] ->
  file_at (disk st) p = Some (Doc (JObj items)) ->
  (load_from p st).1 = Ok true <-> no_overflow items.
Proof.
  intros Hs Hf. split.
  - intros Hret. destruct st as [n l fs s cs hs lg]. simpl in Hs, Hf. subst s.
    revert Hret.
    unfold load_from, os_path_exists, try_except, aio_read, atomic_call, enter.
    cbv [bind gets ret raise modify logger isinstance].
    cbn [disk script calls log with_calls with_script].
    rewrite Hf. cbn [negb].
    cbn [with_script with_calls with_log with_notes script calls disk log
         notes exn_eqb orb andb _loaded seen].
    rewrite Hf.
    match goal with |- context [load_items ?its ?st0] =>
      destruct (load_items_overflow its st0) as [Hno|Hraise]; [done|];
      destruct (load_items its st0) as [r st1] end.
    simpl in Hraise. by subst r.
  - intros Hov. by rewrite (load_from_doc p st items Hs Hf Hov).
Qed.

Lemma load_notes_frame st :
  let r := load_notes st in
  r.1 = Ok tt /\ _loaded r.2 = true /\ disk r.2 = disk st /\ seen r.2 = seen st /\
  forall k z, (k, z) ∈ notes r.2 ->
    (k, z) ∈ notes st \/
    exists p items v, p <> TempFile /\
                      file_at (disk st) p = Some (Doc (JObj items)) /\
                      (k, v) ∈ items /\ int_json v = Ok z.
Proof.
  unfold load_notes. cbn [load_loop]. unfold bind.
  pose proof (load_from_frame NotesFile st) as H1.
  destruct (load_from NotesFile st) as [r1 st1]. cbn zeta in H1. simpl in H1.
  destruct H1 as ([->| ->] & Hl1 & Hd1 & Hs1 & Hv1).
  { cbn. split_and!; [done|by apply Hl1|done|done|]. intros k z Hin.
    apply Hv1 in Hin as [?|(items & v & ?)]; [by left|].
    right. by exists NotesFile, items, v. }
  pose proof (load_from_frame BackupFile st1) as H2.
  destruct (load_from BackupFile st1) as [r2 st2]. cbn zeta in H2. simpl in H2.
  destruct H2 as ([->| ->] & Hl2 & Hd2 & Hs2 & Hv2).
  - cbn. split_and!; [done|by apply Hl2|congruence|congruence|]. intros k z Hin.
    apply Hv2 in Hin as [Hin|(items & v & Hf & ?)].
    + apply Hv1 in Hin as [?|(items & v & ?)]; [by left|].
      right. by exists NotesFile, items, v.
    + rewrite Hd1 in Hf. right. by exists BackupFile, items, v.
  - cbn. split_and!; [done|done|congruence|congruence|]. intros k z Hin.
    by apply not_elem_of_nil in Hin.
Qed.

Lemma ensure_loaded_frame st :
  let r := ensure_loaded st in
  r.1 = Ok tt /\ _loaded r.2 = true /\ disk r.2 = disk st /\ seen r.2 = seen st /\
  (_loaded st = true -> r.2 = st) /\
  forall k z, (k, z) ∈ notes r.2 ->
    (k, z) ∈ notes st \/
    exists p items v, p <> TempFile /\
                      file_at (disk st) p = Some (Doc (JObj items)) /\
                      (k, v) ∈ items /\ int_json v = Ok z.
Proof.
  unfold ensure_loaded, bind, gets. destruct (_loaded st) eqn:El; cbn.
  - split_and!; auto.
  - destruct (load_notes_frame st) as (H1 & H2 & H3 & H4 & H5).
    split_and!; auto. done.
Qed.

(** ** [save_notes] *)

(** Running [save_notes] on a state given by its parts, one event of
    the script at a time. *)
Ltac run_save :=
  unfold save_notes; unfold_py; repeat (next_event; cbv beta iota).

(** [save_notes] returns whatever happens, and leaves the cog alone. *)
Lemma save_notes_frame st :
  let r := save_notes st in
  r.1 = Ok tt /\ notes r.2 = notes st /\ _loaded r.2 = _loaded st.
Proof.
  destruct st as [n l [c b t] s cs hs lg].
  destruct c, b; run_save; by split_and!.
Qed.

(** The snapshot [save_notes] writes. *)
Definition snapshot (st : state) : file_data := Doc (json_of_notes (notes st)).

(** The calls of a save that meets no error: the three steps. *)
Definition save_calls (st : state) : list syscall :=
  [Makedirs; OpenW TempFile; WriteText TempFile (json_of_notes (notes st))]
  ++ match notes_file (disk st), backup_file (disk st) with
     | Some _, Some _ => [Remove BackupFile; Rename NotesFile BackupFile]
     | Some _, None => [Rename NotesFile BackupFile]
     | None, _ => []
     end
  ++ [Rename TempFile NotesFile].

Lemma save_notes_ok st :
  script st = [] ->
  let r := save_notes st in
  disk r.2 =
    Files (Some (snapshot st))
          (match notes_file (disk st) with
           | Some c => Some c
           | None => backup_file (disk st)
           end) None /\
  calls r.2 = calls st ++ save_calls st /\
  log r.2 = log st /\ script r.2 = [].
Proof.
  destruct st as [n l [c b t] s cs hs lg]. simpl. intros ->.
  destruct c, b; unfold save_notes; unfold_py; cbn;
    rewrite <- ?app_assoc; by split_and!.
Qed.

(** A content of a file that is one of the snapshots at hand when the
    save starts (the two files, the notes), or no file. *)
Definition from_snapshots (st : state) (c : option file_data) : Prop :=
  c = None \/ c = notes_file (disk st) \/ c = backup_file (disk st) \/
  c = Some (snapshot st).

Definition files_from_snapshots (st : state) (fs : files) : Prop :=
  from_snapshots st (notes_file fs) /\ from_snapshots st (backup_file fs).

Lemma save_notes_exposed st :
  let r := save_notes st in
  exists new, seen r.2 = seen st ++ new /\
              Forall (files_from_snapshots st) new /\
              (disk r.2 = disk st \/ last new = Some (disk r.2)).
Proof.
  destruct st as [n l [c b t] s cs hs lg].
  destruct c, b; run_save;
    (eexists; split; [cbn; rewrite <- ?app_assoc; try reflexivity;
                      by rewrite app_nil_r|]);
    (split;
     [repeat (apply Forall_cons_2;
              [split; unfold from_snapshots; cbn; auto 6|]);
      apply Forall_nil_2
     |cbn; auto]).
Qed.

(** What [load_notes] would read from the files of [st]: the notes
    file if there is one, the backup otherwise. *)
Definition fallback (fs : files) : option file_data :=
  match notes_file fs with
  | Some c => Some c
  | None => backup_file fs
  end.

(** A save either goes through, and the notes file is the new
    snapshot; or it logs its failure, and then the notes file is the one
    there was (the backup if there was none), unless the restore failed
    too, which leaves that file as the backup. *)
Lemma save_notes_outcome st :
  let r := save_notes st in
  (log r.2 = log st /\ notes_file (disk r.2) = Some (snapshot st)) \/
  ((exists e rest, log r.2 = log st ++ ErrSaveFailed e :: rest) /\
   (notes_file (disk r.2) = fallback (disk st) \/
    (notes_file (disk r.2) = None /\
     backup_file (disk r.2) = fallback (disk st) /\
     exists e e', log r.2 = log st ++ [ErrSaveFailed e; ErrRestoreFailed e']))).
Proof.
  destruct st as [n l [c b t] s cs hs lg].
  destruct c, b; run_save; cbn;
    first [ left; by split
          | right; split;
            [eexists _, _; rewrite <- ?app_assoc; reflexivity
            |first [ by left
                   | right; split_and!; [done|done|];
                     eexists _, _; rewrite <- ?app_assoc; reflexivity ]] ].
Qed.

(** ** The coroutines of the interface, unfolded *)

(** The balance [get_nyx_notes] returns, after the load it may trigger. *)
Definition balance (st : state) (user_id : Z) : Z :=
  dict_get_or (notes (ensure_loaded st).2) (str_int user_id) 0.

Lemma get_nyx_notes_unfold u st :
  get_nyx_notes u st = (Ok (balance st u), (ensure_loaded st).2).
Proof.
  unfold get_nyx_notes, balance, bind, gets.
  destruct (ensure_loaded_frame st) as (H1 & _).
  destruct (ensure_loaded st) as [r st1]. simpl in *. by subst.
Qed.

Lemma add_nyx_notes_unfold u d st :
  let st1 := (ensure_loaded st).2 in
  let new_total := Z.max 0 (balance st u + d) in
  add_nyx_notes u d st =
    (Ok new_total,
     (save_notes (with_notes (dict_set (notes st1) (str_int u) new_total) st1)).2).
Proof.
  unfold add_nyx_notes, balance, bind, gets, notes_setitem, modify, ret.
  destruct (ensure_loaded_frame st) as (H1 & _).
  destruct (ensure_loaded st) as [r st1]. simpl in *. subst r.
  match goal with |- context [save_notes ?s] =>
    destruct (save_notes_frame s) as (H2 & _);
    destruct (save_notes s) as [r2 st2] end.
  simpl in *. by subst.
Qed.

Lemma set_nyx_notes_unfold u v st :
  let st1 := (ensure_loaded st).2 in
  set_nyx_notes u v st =
    (Ok (Z.max 0 v),
     (save_notes (with_notes (dict_set (notes st1) (str_int u) (Z.max 0 v)) st1)).2).
Proof.
  unfold set_nyx_notes, bind, gets, notes_setitem, modify, ret.
  destruct (ensure_loaded_frame st) as (H1 & _).
  destruct (ensure_loaded st) as [r st1]. simpl in *. subst r.
  match goal with |- context [save_notes ?s] =>
    destruct (save_notes_frame s) as (H2 & _);
    destruct (save_notes s) as [r2 st2] end.
  simpl in *. by subst.
Qed.

Lemma ensure_loaded_idem st : _loaded st = true -> ensure_loaded st = (Ok tt, st).
Proof. intros H. unfold ensure_loaded, bind, gets. by rewrite H. Qed.

Lemma balance_loaded st u :
  _loaded st = true -> balance st u = dict_get_or (notes st) (str_int u) 0.
Proof. intros H. unfold balance. by rewrite ensure_loaded_idem. Qed.

(* ================================================================== *)
(** * The ledger: adding to a balance                                  *)
(* ================================================================== *)

(** One step of the fold: the balance after one call. *)
Definition clamp_add (b d : Z) : Z := Z.max 0 (b + d).

Lemma add_nyx_notes_loaded u d st : _loaded (add_nyx_notes u d st).2 = true.
Proof.
  rewrite add_nyx_notes_unfold. cbn zeta. simpl.
  match goal with |- context [save_notes ?s] =>
    destruct (save_notes_frame s) as (_ & _ & ->) end.
  simpl. by destruct (ensure_loaded_frame st) as (_ & -> & _).
Qed.

Lemma add_nyx_notes_stores u d st :
  dict_get (notes (add_nyx_notes u d st).2) (str_int u)
  = Some (clamp_add (balance st u) d).
Proof.
  rewrite add_nyx_notes_unfold. cbn zeta. simpl.
  match goal with |- context [save_notes ?s] =>
    destruct (save_notes_frame s) as (_ & -> & _) end.
  simpl. by rewrite dict_get_set_eq.
Qed.

Lemma add_nyx_notes_balance u d st :
  balance (add_nyx_notes u d st).2 u = clamp_add (balance st u) d.
Proof.
  rewrite balance_loaded by apply add_nyx_notes_loaded.
  unfold dict_get_or. by rewrite add_nyx_notes_stores.
Qed.

Lemma add_each_balance u ds : forall st,
  (add_each u ds st).1 = Ok tt /\
  balance (add_each u ds st).2 u = fold_left clamp_add ds (balance st u).
Proof.
  induction ds as [|d ds IH]; intros st; [done|].
  cbn [add_each fold_left]. unfold bind.
  pose proof (add_nyx_notes_unfold u d st) as Hu. cbn zeta in Hu.
  pose proof (add_nyx_notes_balance u d st) as Hb.
  destruct (add_nyx_notes u d st) as [r st1]. injection Hu as -> _.
  simpl in Hb. rewrite <- Hb. apply IH.
Qed.

(** C1.  [add_nyx_notes(u, d)] returns [max(0, b + d)] for the balance
    [b] the user had, and stores it under [str(u)]; successive calls
    for one user leave the left fold of [b, d => max(0, b + d)] over
    the amounts, clamped at every step: 5 and then -100 from 0 leave 0,
    and a further 7 leaves 7 (a sum clamped only at its end would
    leave 0). *)
Theorem add_nyx_notes_clamps (u d : Z) (ds : list Z) (st : state)
    (events : list io_event) :
  (add_nyx_notes u d st).1 = Ok (Z.max 0 (balance st u + d)) /\
  dict_get (notes (add_nyx_notes u d st).2) (str_int u)
    = Some (Z.max 0 (balance st u + d)) /\
  (get_nyx_notes u (add_nyx_notes u d st).2).1 = Ok (Z.max 0 (balance st u + d)) /\
  (add_each u ds st).1 = Ok tt /\
  (get_nyx_notes u (add_each u ds st).2).1
    = Ok (fold_left (fun b d => Z.max 0 (b + d)) ds (balance st u)) /\
  (get_nyx_notes u (add_each u [5; -100] (init no_files events)).2).1 = Ok 0 /\
  (get_nyx_notes u (add_each u [5; -100; 7] (init no_files events)).2).1 = Ok 7.
Proof.
  split_and!.
  - by rewrite add_nyx_notes_unfold.
  - apply add_nyx_notes_stores.
  - rewrite get_nyx_notes_unfold. cbn [fst]. f_equal. apply add_nyx_notes_balance.
  - apply add_each_balance.
  - rewrite get_nyx_notes_unfold. cbn [fst]. f_equal. apply add_each_balance.
  - rewrite get_nyx_notes_unfold. cbn [fst]. f_equal.
    by destruct (add_each_balance u [5; -100] (init no_files events)) as [_ ->].
  - rewrite get_nyx_notes_unfold. cbn [fst]. f_equal.
    by destruct (add_each_balance u [5; -100; 7] (init no_files events)) as [_ ->].
Qed.

(* ================================================================== *)
(** * The ledger: persistence                                          *)
(* ================================================================== *)

(** A file that is absent, or a whole snapshot of some notes. *)
Definition committed (c : option file_data) : Prop :=
  match c with
  | None => True
  | Some d => exists n, d = Doc (json_of_notes n)
  end.

Lemma from_snapshots_committed st c :
  committed (notes_file (disk st)) -> committed (backup_file (disk st)) ->
  from_snapshots st c -> committed c.
Proof.
  intros Hn Hb [->|[->|[->| ->]]]; try done. simpl. by eexists.
Qed.

(** C2.  A save that meets no error makes the calls of [save_calls]:
    the notes are written to the temporary file, the notes file (if
    there is one) is renamed to the backup after the old backup is
    removed, and the temporary file is renamed to the notes file.
    Whatever call fails, every content the files go through (each one
    what a crash at that moment leaves on disk) has at the notes path
    no file, the file that was there, the backup that was there, or
    the whole new snapshot: never a torn one when those were whole. *)
Theorem save_notes_crash_safe (st : state) :
  let r := save_notes st in
  (script st = [] ->
   calls r.2 = calls st ++ save_calls st /\
   disk r.2 = Files (Some (snapshot st)) (fallback (disk st)) None) /\
  exists new,
    seen r.2 = seen st ++ new /\
    Forall (fun fs => from_snapshots st (notes_file fs)) new /\
    (committed (notes_file (disk st)) -> committed (backup_file (disk st)) ->
     Forall (fun fs => committed (notes_file fs) /\ notes_file fs <> Some Torn) new).
Proof.
  cbn zeta. split.
  - intros Hs. destruct (save_notes_ok st Hs) as (Hd & Hc & _). by rewrite Hd, Hc.
  - destruct (save_notes_exposed st) as (new & Hseen & Hall & _).
    exists new. split_and!; [done| |].
    + eapply Forall_impl; [exact Hall|]. by intros fs [? _].
    + intros Hn Hb. eapply Forall_impl; [exact Hall|]. intros fs [Hfs _].
      pose proof (from_snapshots_committed st _ Hn Hb Hfs) as Hc.
      split; [done|]. intros Heq. rewrite Heq in Hc. by destruct Hc.
Qed.

(** The steps of one save over an older notes file and an older backup,
    and the contents a crash can leave: the torn text is only ever in
    the temporary file. *)
Example save_notes_steps :
  let old := Doc (json_of_notes [("7", 5)]) in
  let older := Doc (json_of_notes []) in
  let new := Doc (json_of_notes [("7", 8)]) in
  let st := State [("7", 8)] true (Files (Some old) (Some older) None) [] [] [] [] in
  calls (save_notes st).2 =
    [Makedirs; OpenW TempFile; WriteText TempFile (json_of_notes [("7", 8)]);
     Remove BackupFile; Rename NotesFile BackupFile; Rename TempFile NotesFile] /\
  seen (save_notes st).2 =
    [Files (Some old) (Some older) (Some Blank);
     Files (Some old) (Some older) (Some Torn);
     Files (Some old) (Some older) (Some new);
     Files (Some old) None (Some new);
     Files None (Some old) (Some new);
     Files (Some new) (Some old) None].
Proof. done. Qed.

(** The items of the object [json.dumps] writes are all kept by the
    loop of [load_notes], as they are. *)
Lemma kept_json_of_notes (n : dict Z) :
  kept (map (fun kv => (kv.1, JInt kv.2)) n) = n.
Proof.
  unfold kept. induction n as [|[k v] n IH]; [done|].
  cbn [map omap list_omap]. simpl. f_equal. exact IH.
Qed.

Lemma dropped_json_of_notes (n : dict Z) :
  dropped (map (fun kv => (kv.1, JInt kv.2)) n) = [].
Proof.
  unfold dropped. induction n as [|[k v] n IH]; [done|].
  cbn [map omap list_omap]. simpl. exact IH.
Qed.

Lemma no_overflow_json_of_notes (n : dict Z) :
  no_overflow (map (fun kv => (kv.1, JInt kv.2)) n).
Proof. unfold no_overflow. apply Forall_map. by apply Forall_true. Qed.

(** Loading a snapshot gives its notes back. *)
Lemma load_notes_snapshot (n : dict Z) st :
  wf_dict n -> script st = [] ->
  notes_file (disk st) = Some (Doc (json_of_notes n)) ->
  load_notes st =
    (Ok tt, State n true (disk st) [] (calls st ++ [ReadText NotesFile])
                  (seen st) (log st)).
Proof.
  intros Hwf Hs Hf. unfold load_notes. cbn [load_loop]. unfold bind at 1 2.
  rewrite (load_from_doc NotesFile st _ Hs Hf (no_overflow_json_of_notes n)).
  rewrite kept_json_of_notes, dropped_json_of_notes, set_all_nil, app_nil_r by done.
  reflexivity.
Qed.

(** C3.  Saving a mapping [M] of string keys to integers (no call
    failing) and loading again, in the same cog or in a fresh one over
    the same files, gives [M] back, item for item and in the same
    order. *)
Theorem save_load_roundtrip (M : dict Z) (st : state) :
  wf_dict M -> notes st = M -> script st = [] ->
  let saved := (save_notes st).2 in
  (load_notes saved).1 = Ok tt /\
  notes (load_notes saved).2 = M /\
  notes (load_notes (init (disk saved) [])).2 = M.
Proof.
  intros Hwf Hn Hs. cbn zeta.
  destruct (save_notes_ok st Hs) as (Hd & _ & _ & Hs').
  assert (notes_file (disk (save_notes st).2) = Some (Doc (json_of_notes M))) as Hf.
  { rewrite Hd. unfold snapshot. by rewrite Hn. }
  rewrite (load_notes_snapshot M _ Hwf Hs' Hf).
  rewrite (load_notes_snapshot M (init _ []) Hwf eq_refl Hf). done.
Qed.

Lemma save_load_roundtrip_witness :
  let M := [("7", 5); ("1388158646973632685", 0); ("8", 12)] in
  let st := State M true (Files (Some Malformed) None None) [] [] [] [] in
  notes (load_notes (init (disk (save_notes st).2) [])).2 = M.
Proof.
  cbn zeta.
  assert (wf_dict [("7", 5); ("1388158646973632685", 0); ("8", 12)]) as Hwf.
  { unfold wf_dict. by apply (bool_decide_unpack _). }
  exact (proj2 (proj2 (save_load_roundtrip _
           (State _ true (Files (Some Malformed) None None) [] [] [] [])
           Hwf eq_refl eq_refl))).
Defined.

(** ** When the save fails *)

(** The save of a mutation failed: it logged [Failed to save]. *)
Definition save_failed (before after : state) : Prop :=
  exists e rest, log after = log (ensure_loaded before).2 ++ ErrSaveFailed e :: rest.

(** After a failed save the notes file is the one there was (the
    backup, if there was none); or the restore failed as well, and that
    file is now the backup. *)
Definition canonical_in_place (before after : state) : Prop :=
  notes_file (disk after) = fallback (disk before) \/
  (notes_file (disk after) = None /\
   backup_file (disk after) = fallback (disk before) /\
   exists e e', log after
     = log (ensure_loaded before).2 ++ [ErrSaveFailed e; ErrRestoreFailed e']).

Lemma app_cons_not_self {A} (l r : list A) (x : A) : l <> l ++ x :: r.
Proof.
  intros H. apply (f_equal length) in H. rewrite length_app in H. simpl in H. lia.
Qed.

Lemma mutation_failed_save st n' st' :
  st' = (save_notes (with_notes n' (ensure_loaded st).2)).2 ->
  save_failed st st' -> canonical_in_place st st'.
Proof.
  intros -> (e & rest & Hlog).
  destruct (ensure_loaded_frame st) as (_ & _ & Hd & _).
  pose proof (save_notes_outcome (with_notes n' (ensure_loaded st).2)) as Ho.
  cbn zeta in Ho. simpl in Ho. rewrite Hd in Ho.
  destruct Ho as [[Hl _]|[_ Hc]].
  - rewrite Hl in Hlog. by apply app_cons_not_self in Hlog.
  - exact Hc.
Qed.

(** C5.  Whatever calls fail during the save, [add_nyx_notes] and
    [set_nyx_notes] return the new value and raise nothing, and the
    notes hold it; and when the save failed, the notes file that was in
    place still is (restored from the backup when the failure left no
    notes file, as far as the restore itself succeeds). *)
Theorem mutations_survive_failed_save (u d v : Z) (st : state) :
  let a := add_nyx_notes u d st in
  let s := set_nyx_notes u v st in
  a.1 = Ok (Z.max 0 (balance st u + d)) /\
  dict_get (notes a.2) (str_int u) = Some (Z.max 0 (balance st u + d)) /\
  s.1 = Ok (Z.max 0 v) /\
  dict_get (notes s.2) (str_int u) = Some (Z.max 0 v) /\
  (save_failed st a.2 -> canonical_in_place st a.2) /\
  (save_failed st s.2 -> canonical_in_place st s.2).
Proof.
  cbn zeta. split_and!.
  - by rewrite add_nyx_notes_unfold.
  - apply add_nyx_notes_stores.
  - by rewrite set_nyx_notes_unfold.
  - rewrite set_nyx_notes_unfold. cbn zeta. cbn [snd].
    match goal with |- context [save_notes ?s] =>
      destruct (save_notes_frame s) as (_ & -> & _) end.
    simpl. by rewrite dict_get_set_eq.
  - eapply mutation_failed_save. rewrite add_nyx_notes_unfold. reflexivity.
  - eapply mutation_failed_save. rewrite set_nyx_notes_unfold. reflexivity.
Qed.

(** A save that fails at its last rename, after the notes file has
    become the backup: [add_nyx_notes] returns 8 all the same, the
    notes hold 8, and the old notes file is back in place. *)
Example add_nyx_notes_failed_rename :
  let old := Doc (json_of_notes [("7", 5)]) in
  let st := State [("7", 5)] true (Files (Some old) None None)
                  [IoOk; IoOk; IoOk; IoOk; IoFail false] [] [] [] in
  let a := add_nyx_notes 7 3 st in
  a.1 = Ok 8 /\ notes a.2 = [("7", 8)] /\
  save_failed st a.2 /\
  notes_file (disk a.2) = Some old /\ log a.2 = [ErrSaveFailed OSError].
Proof. cbn zeta. split_and!; try done. by exists OSError, []. Qed.

(* ================================================================== *)
(** * The ledger: loading                                              *)
(* ================================================================== *)

Lemma dropped_in items k v e :
  (k, v) ∈ items -> int_json v = Raise e -> WarnInvalidData k v ∈ dropped items.
Proof.
  intros Hin Hv. unfold dropped. apply list_elem_of_omap.
  exists (k, v). split; [done|]. simpl. by rewrite Hv.
Qed.

Lemma kept_get items k v :
  wf_dict items -> (k, v) ∈ items ->
  dict_get (kept items) k
  = match int_json v with Ok z => Some z | Raise _ => None end.
Proof.
  intros Hwf Hin. destruct (int_json v) as [z|e] eqn:Hv.
  - apply dict_in_get; [by apply kept_wf|].
    unfold kept. apply list_elem_of_omap. exists (k, v). split; [done|].
    simpl. by rewrite Hv.
  - apply dict_get_None_keys. intros Hk.
    apply list_elem_of_fmap in Hk as ([k' z] & -> & Hk). simpl in *.
    apply kept_in in Hk as (v' & Hin' & Hv').
    apply (dict_in_get _ _ _ Hwf) in Hin, Hin'. congruence.
Qed.

(** The notes after a load that ends at the object [items] of the file
    at [p], read without an I/O error. *)
Lemma load_notes_from st items :
  script st = [] -> no_overflow items ->
  notes_file (disk st) = Some (Doc (JObj items)) \/
  (unusable (notes_file (disk st)) /\
   backup_file (disk st) = Some (Doc (JObj items))) ->
  let r := load_notes st in
  notes r.2 = set_all [] (kept items) /\
  exists skipped, log r.2 = log st ++ skipped ++ dropped items.
Proof.
  intros Hs Hov Hfile. cbn zeta. unfold load_notes. cbn [load_loop]. unfold bind.
  destruct Hfile as [Hf|[Hu Hf]].
  - rewrite (load_from_doc NotesFile st _ Hs Hf Hov). cbn. split; [done|].
    by exists [].
  - destruct (load_from_unusable NotesFile st Hu) as (H1 & H2 & H3 & H4 & H5 & H6).
    assert (exists skipped, log (load_from NotesFile st).2 = log st ++ skipped)
      as [skipped Hlog].
    { clear -Hu Hs. destruct st as [n l [c b t] s cs hs lg]. simpl in *. subst s.
      unfold load_from. unfold_py.
      destruct c as [[| | |[]]|]; try done; cbn;
        solve [by eexists|exists []; by rewrite app_nil_r]. }
    destruct (load_from NotesFile st) as [r1 st1] eqn:E1. simpl in *. subst r1.
    assert (file_at (disk st1) BackupFile = Some (Doc (JObj items))) as Hf'
      by (by rewrite H4).
    rewrite (load_from_doc BackupFile st1 _ (H6 Hs) Hf' Hov). cbn. split; [done|].
    exists skipped. by rewrite Hlog, app_assoc.
Qed.

(** What [load_notes] does with the files.  It raises nothing and
    leaves the cog loaded.  It reads the notes file first; a notes
    file that is missing, blank, not JSON or not a JSON object sends
    it to the backup; and when neither file can be used the notes are
    empty.  A file that holds a JSON object is loaded exactly when
    [int] overflows on none of its values ([no_overflow]: no infinite
    float); from the object it loads, an entry is kept under its key,
    which is a string, with the integer [int] makes of its value, and
    is dropped with a warning when [int] raises [ValueError] or
    [TypeError]. *)
Theorem load_notes_fallback (st : state) (items : list (string * json)) :
  let r := load_notes st in
  (r.1 = Ok tt /\ _loaded r.2 = true) /\
  (script st = [] -> notes_file (disk st) = Some (Doc (JObj items)) ->
   ((load_from NotesFile st).1 = Ok true <-> no_overflow items)) /\
  (script st = [] -> no_overflow items -> wf_dict items ->
   notes_file (disk st) = Some (Doc (JObj items)) \/
   (unusable (notes_file (disk st)) /\
    backup_file (disk st) = Some (Doc (JObj items))) ->
   notes r.2 = kept items /\
   forall k v, (k, v) ∈ items ->
     match int_json v with
     | Ok z => dict_get (notes r.2) k = Some z
     | Raise _ => dict_get (notes r.2) k = None /\ WarnInvalidData k v ∈ log r.2
     end) /\
  (unusable (notes_file (disk st)) -> unusable (backup_file (disk st)) ->
   notes r.2 = []).
Proof.
  cbn zeta. split_and!.
  - by destruct (load_notes_frame st) as (? & _).
  - by destruct (load_notes_frame st) as (_ & ? & _).
  - intros Hs Hf. by apply load_from_returns.
  - intros Hs Hov Hwf Hfile.
    destruct (load_notes_from st items Hs Hov Hfile) as (Hn & skipped & Hl).
    rewrite set_all_nil in Hn by by apply kept_wf.
    split; [done|]. intros k v Hin. rewrite Hn, (kept_get _ _ _ Hwf Hin).
    destruct (int_json v) as [z|e] eqn:Hv; [done|]. split; [done|].
    rewrite Hl, !elem_of_app. right. right. by eapply dropped_in.
  - intros Hu1 Hu2. unfold load_notes. cbn [load_loop]. unfold bind.
    destruct (load_from_unusable NotesFile st Hu1) as (H1 & H2 & H3 & H4 & H5 & H6).
    destruct (load_from NotesFile st) as [r1 st1]. simpl in *. subst r1.
    assert (unusable (file_at (disk st1) BackupFile)) as Hu2' by (by rewrite H4).
    destruct (load_from_unusable BackupFile st1 Hu2') as (H1' & _).
    destruct (load_from BackupFile st1) as [r2 st2]. simpl in *. by subst r2.
Qed.

(** A notes file whose values are of every kind: the integers, the
    bool, the finite float and the numeric string are kept as
    integers; null, the word, NaN and the list are dropped, each
    with a warning. *)
Example load_notes_mixed_values :
  let items :=
    [("1", JInt 5); ("2", JStr " 1_0 "); ("3", JNull); ("4", JBool true);
     ("5", JFloat (Finite (-7 # 2))); ("6", JStr "ten"); ("7", JFloat NaN);
     ("8", JArr []); ("nine", JInt 9)] in
  let r := load_notes (init (Files (Some (Doc (JObj items))) None None) []) in
  notes r.2 = [("1", 5); ("2", 10); ("4", 1); ("5", -3); ("nine", 9)] /\
  log r.2 = [WarnInvalidData "3" JNull; WarnInvalidData "6" (JStr "ten");
             WarnInvalidData "7" (JFloat NaN); WarnInvalidData "8" (JArr [])].
Proof. done. Qed.

(** A corrupted notes file over a valid backup: the backup is loaded.
    No file at all: the notes are empty. *)
Example load_notes_recovers :
  let backup := Doc (json_of_notes [("7", 5)]) in
  notes (load_notes (init (Files (Some Malformed) (Some backup) None) [])).2
    = [("7", 5)] /\
  notes (load_notes (init (Files (Some Torn) (Some backup) None) [])).2
    = [("7", 5)] /\
  load_notes (init no_files []) = (Ok tt, State [] true no_files [] [] [] []).
Proof. done. Qed.

(** A notes file with an infinite float: [int] raises [OverflowError],
    which the loop does not catch, so the file is given up as a whole
    and the backup is loaded. *)
Example load_notes_overflow :
  let items := [("1", JInt 5); ("2", JFloat (Inf false)); ("3", JInt 7)] in
  let backup := Doc (json_of_notes [("7", 5)]) in
  let r := load_notes (init (Files (Some (Doc (JObj items))) (Some backup) None) []) in
  notes r.2 = [("7", 5)] /\ log r.2 = [ErrLoadFailed NotesFile OverflowError].
Proof. done. Qed.

(** C6.  The defect.  The handler of an entry is
    [except (ValueError, TypeError)], and [int] of an infinite float
    ([Infinity] in the file, or a number such as [1e999]) raises
    [OverflowError]: the loop over the entries ends there, the load of
    the file counts as failed and is logged as an error, and the
    entries that were good are lost with it, where a value [int]
    refuses with [ValueError] (here [NaN]) is dropped with a warning
    and the others are kept.  With no backup the notes are empty. *)
Theorem load_notes_infinity_gives_file_up :
  let good := [("1", 5); ("3", 7)] in
  let file (v : json) :=
    Files (Some (Doc (JObj [("1", JInt 5); ("2", v); ("3", JInt 7)]))) None None in
  let r := load_notes (init (file (JFloat NaN)) []) in
  let r' := load_notes (init (file (JFloat (Inf false))) []) in
  (r.1 = Ok tt /\ notes r.2 = good /\
   log r.2 = [WarnInvalidData "2" (JFloat NaN)]) /\
  (r'.1 = Ok tt /\ notes r'.2 = [] /\ notes r'.2 <> good /\
   log r'.2 = [ErrLoadFailed NotesFile OverflowError]).
Proof. by split_and!. Qed.

(* ================================================================== *)
(** * The ledger: balances stay non-negative                           *)
(* ================================================================== *)

Definition nonneg (n : dict Z) : Prop := Forall (fun kv => 0 <= kv.2) n.

(** The balances [load_notes] would take from a file are non-negative:
    every integer [int] makes of a value of its object is. *)
Definition file_nonneg (c : option file_data) : Prop :=
  match c with
  | Some (Doc (JObj items)) =>
      Forall (fun kv => forall z, int_json kv.2 = Ok z -> 0 <= z) items
  | _ => True
  end.

(** The store, in memory and on disk, holds no negative balance. *)
Definition ledger_nonneg (st : state) : Prop :=
  nonneg (notes st) /\
  file_nonneg (notes_file (disk st)) /\ file_nonneg (backup_file (disk st)).

Lemma snapshot_nonneg st : nonneg (notes st) -> file_nonneg (Some (snapshot st)).
Proof.
  unfold nonneg, snapshot. simpl. intros H. apply Forall_map.
  eapply Forall_impl; [exact H|]. intros [k v] Hv z [= <-]. exact Hv.
Qed.

Lemma save_notes_nonneg st : ledger_nonneg st -> ledger_nonneg (save_notes st).2.
Proof.
  intros (Hn & Hc & Hb).
  destruct (save_notes_frame st) as (_ & Hnotes & _).
  assert (forall c, from_snapshots st c -> file_nonneg c) as Hfrom.
  { intros c [->|[->|[->| ->]]]; [done|done|done|by apply snapshot_nonneg]. }
  destruct (save_notes_exposed st) as (new & _ & Hall & Hlast).
  assert (files_from_snapshots st (disk (save_notes st).2)) as [H1 H2].
  { destruct Hlast as [->|Hlast].
    - split; unfold from_snapshots; auto.
    - rewrite Forall_forall in Hall. apply Hall.
      apply last_Some in Hlast as [l' ->]. rewrite elem_of_app. right. left. }
  unfold ledger_nonneg. rewrite Hnotes. auto.
Qed.

Lemma ensure_loaded_nonneg st : ledger_nonneg st -> ledger_nonneg (ensure_loaded st).2.
Proof.
  intros (Hn & Hc & Hb).
  destruct (ensure_loaded_frame st) as (_ & _ & Hd & _ & _ & Hv).
  unfold ledger_nonneg. rewrite Hd. split_and!; [|done|done].
  apply Forall_forall. intros [k z] Hin.
  apply Hv in Hin as [Hin|(p & items & v & Hp & Hf & Hin & Hz)].
  - unfold nonneg in Hn. rewrite Forall_forall in Hn. by apply (Hn (k, z)).
  - assert (file_nonneg (Some (Doc (JObj items)))) as Hfile.
    { destruct p; simpl in Hf; rewrite <- Hf; done. }
    simpl in Hfile. rewrite Forall_forall in Hfile. by apply (Hfile (k, v)).
Qed.

Lemma setitem_nonneg st k v :
  0 <= v -> ledger_nonneg st -> ledger_nonneg (with_notes (dict_set (notes st) k v) st).
Proof.
  intros Hv (Hn & Hc & Hb). split_and!; [|done|done]. simpl.
  apply Forall_forall. intros [k' v'] Hin.
  apply dict_set_values in Hin as [Hin|[_ ->]]; [|done].
  unfold nonneg in Hn. rewrite Forall_forall in Hn. by apply (Hn (k', v')).
Qed.

Lemma load_notes_nonneg st : ledger_nonneg st -> ledger_nonneg (load_notes st).2.
Proof.
  intros (Hn & Hc & Hb).
  destruct (load_notes_frame st) as (_ & _ & Hd & _ & Hv).
  unfold ledger_nonneg. rewrite Hd. split_and!; [|done|done].
  apply Forall_forall. intros [k z] Hin.
  apply Hv in Hin as [Hin|(p & items & v & Hp & Hf & Hin & Hz)].
  - unfold nonneg in Hn. rewrite Forall_forall in Hn. by apply (Hn (k, z)).
  - assert (file_nonneg (Some (Doc (JObj items)))) as Hfile.
    { destruct p; simpl in Hf; rewrite <- Hf; done. }
    simpl in Hfile. rewrite Forall_forall in Hfile. by apply (Hfile (k, v)).
Qed.

Lemma mutation_loaded_nonneg st k v :
  0 <= v -> nonneg (notes st) ->
  nonneg (notes (save_notes (with_notes (dict_set (notes st) k v) st)).2).
Proof.
  intros Hv Hn.
  match goal with |- context [save_notes ?s] =>
    destruct (save_notes_frame s) as (_ & -> & _) end.
  simpl. apply Forall_forall. intros [k' v'] Hin.
  apply dict_set_values in Hin as [Hin|[_ ->]]; [|done].
  unfold nonneg in Hn. rewrite Forall_forall in Hn. by apply (Hn (k', v')).
Qed.

(** C7.  No balance of the store is negative.  On a loaded cog,
    [add_nyx_notes] and [set_nyx_notes] take non-negative notes to
    non-negative notes, and the balance they set is clamped at 0.
    With the files that persist the notes counted in (the balances
    [load_notes] would read from them), [add_nyx_notes],
    [set_nyx_notes] and [load_notes] take a store without negative
    balance to a store without negative balance, whatever call
    fails. *)
Theorem balances_nonneg (u d v : Z) (st : state) :
  nonneg (notes st) ->
  (_loaded st = true ->
   nonneg (notes (add_nyx_notes u d st).2) /\
   nonneg (notes (set_nyx_notes u v st).2)) /\
  (file_nonneg (notes_file (disk st)) -> file_nonneg (backup_file (disk st)) ->
   ledger_nonneg (add_nyx_notes u d st).2 /\
   ledger_nonneg (set_nyx_notes u v st).2 /\
   ledger_nonneg (load_notes st).2) /\
  0 <= balance (add_nyx_notes u d st).2 u /\
  0 <= balance (set_nyx_notes u v st).2 u.
Proof.
  intros Hn. split_and!.
  - intros Hl. rewrite add_nyx_notes_unfold, set_nyx_notes_unfold. cbn zeta.
    rewrite (ensure_loaded_idem st Hl). cbn [snd].
    split; apply mutation_loaded_nonneg; (lia || done).
  - intros Hc Hb. assert (ledger_nonneg st) as Hst by done. split_and!.
    + rewrite add_nyx_notes_unfold. cbn zeta. cbn [snd].
      apply save_notes_nonneg, setitem_nonneg; [lia|by apply ensure_loaded_nonneg].
    + rewrite set_nyx_notes_unfold. cbn zeta. cbn [snd].
      apply save_notes_nonneg, setitem_nonneg; [lia|by apply ensure_loaded_nonneg].
    + by apply load_notes_nonneg.
  - rewrite add_nyx_notes_balance. unfold clamp_add. lia.
  - rewrite set_nyx_notes_unfold. cbn zeta. cbn [snd].
    rewrite balance_loaded.
    + match goal with |- context [save_notes ?s] =>
        destruct (save_notes_frame s) as (_ & -> & _) end.
      simpl. rewrite dict_get_or_set_eq. lia.
    + match goal with |- context [save_notes ?s] =>
        destruct (save_notes_frame s) as (_ & _ & ->) end.
      simpl. by destruct (ensure_loaded_frame st) as (_ & -> & _).
Qed.

Lemma init_nonneg events : ledger_nonneg (init no_files events).
Proof. by split_and!; [apply Forall_nil_2|..]. Qed.

Lemma balances_nonneg_witness :
  let st := State [("7", 5); ("8", 0)] true
                  (Files (Some (Doc (json_of_notes [("7", 5)]))) None None)
                  [] [] [] [] in
  nonneg (notes (add_nyx_notes 7 (-100) st).2) /\
  ledger_nonneg (add_nyx_notes 7 (-100) st).2 /\
  ledger_nonneg (set_nyx_notes 7 (-3) st).2 /\
  ledger_nonneg (load_notes st).2.
Proof.
  cbn zeta.
  pose proof (balances_nonneg 7 (-100) (-3)
    (State [("7", 5); ("8", 0)] true
           (Files (Some (Doc (json_of_notes [("7", 5)]))) None None)
           [] [] [] [])) as H.
  destruct H as (Hmem & Hfiles & _).
  - repeat (apply Forall_cons_2; [simpl; lia|]). apply Forall_nil_2.
  - split; [exact (proj1 (Hmem eq_refl))|]. apply Hfiles.
    + simpl. repeat (apply Forall_cons_2; [by intros z [= <-]|]). apply Forall_nil_2.
    + exact I.
Defined.

(** [load_notes] itself does not clamp: it is the files that must hold
    no negative balance, as those [save_notes] writes do. *)
Example load_notes_takes_negative :
  notes (load_notes (init (Files (Some (Doc (JObj [("7", JInt (-5))]))) None None) [])).2
  = [("7", -5)].
Proof. done. Qed.

(* ================================================================== *)
(** * The ledger: the leaderboard                                      *)
(* ================================================================== *)

Section SortedFacts.
Context {A : Type} (key : A -> Z).

(** [x] before [y] in a list sorted by descending key. *)
Definition desc (x y : A) : Prop := key y <= key x.

Lemma insert_desc_perm x l : insert_desc key x l ≡ₚ x :: l.
Proof.
  induction l as [|y l IH]; simpl; [done|].
  destruct (Z.leb (key y) (key x)); [done|].
  rewrite IH. apply Permutation_swap.
Qed.

Lemma sorted_desc_perm l : sorted_desc key l ≡ₚ l.
Proof.
  induction l as [|x l IH]; simpl; [done|].
  by rewrite insert_desc_perm, IH.
Qed.

Lemma insert_desc_sorted x l :
  StronglySorted desc l -> StronglySorted desc (insert_desc key x l).
Proof.
  induction l as [|y l IH]; simpl; intros Hs.
  - repeat constructor.
  - apply StronglySorted_inv in Hs as [Hs Hy].
    destruct (Z.leb (key y) (key x)) eqn:E.
    + apply Z.leb_le in E. constructor; [by constructor|].
      constructor; [done|].
      eapply Forall_impl; [exact Hy|]. unfold desc. intros z Hz. lia.
    + apply Z.leb_gt in E. constructor; [by apply IH|].
      rewrite insert_desc_perm. constructor; [unfold desc; lia|done].
Qed.

Lemma sorted_desc_sorted l : StronglySorted desc (sorted_desc key l).
Proof.
  induction l as [|x l IH]; simpl; [constructor|by apply insert_desc_sorted].
Qed.

(** Stability: the items of one key are in the order they had. *)
Lemma insert_desc_stable b x l :
  filter (fun y => key y = b) (insert_desc key x l)
  = filter (fun y => key y = b) (x :: l).
Proof.
  induction l as [|y l IH]; simpl; [done|].
  destruct (Z.leb (key y) (key x)) eqn:E; [done|].
  apply Z.leb_gt in E. rewrite !filter_cons in *.
  destruct (decide (key y = b)), (decide (key x = b)); try lia;
    rewrite IH; done.
Qed.

Lemma sorted_desc_stable b l :
  filter (fun y => key y = b) (sorted_desc key l) = filter (fun y => key y = b) l.
Proof.
  induction l as [|x l IH]; simpl; [done|].
  rewrite insert_desc_stable, !filter_cons, IH. done.
Qed.

Lemma sorted_desc_length l : length (sorted_desc key l) = length l.
Proof. by rewrite sorted_desc_perm. Qed.

End SortedFacts.

Lemma slice_to_nonneg {A} (l : list A) (n : Z) :
  0 <= n -> slice_to l n = take (Z.to_nat n) l.
Proof. intros H. unfold slice_to. by rewrite (proj2 (Z.leb_le 0 n)). Qed.

(** A key [int] accepts. *)
Definition decimal (k : string) : Prop := exists z, int_str k = Ok z.

(** The pairs of the comprehension, when every key is decimal: the
    items, in their order, each key replaced by its integer. *)
Lemma int_keys_decimal (n : dict Z) :
  Forall decimal n.*1 ->
  exists pairs, int_keys n = Ok pairs /\
                Forall2 (fun kv p => int_str kv.1 = Ok p.1 /\ kv.2 = p.2) n pairs.
Proof.
  induction n as [|[k v] n IH]; intros H.
  - exists []. split; [done|constructor].
  - rewrite fmap_cons in H. apply Forall_cons in H as [[z Hz] H].
    destruct (IH H) as (pairs & Hp & Hall). exists ((z, v) :: pairs).
    simpl in *. rewrite Hz, Hp. split; [done|]. by constructor.
Qed.

Lemma int_keys_raises (n : dict Z) k :
  k ∈ n.*1 -> int_str k = Raise ValueError -> int_keys n = Raise ValueError.
Proof.
  induction n as [|[k' v] n IH]; intros Hin Hk.
  - by apply not_elem_of_nil in Hin.
  - rewrite fmap_cons in Hin. simpl in *.
    destruct (int_str k') as [z|e] eqn:E.
    + apply elem_of_cons in Hin as [->|Hin]; [congruence|]. by rewrite IH.
    + by rewrite (int_str_raises _ _ E).
Qed.

Lemma get_leaderboard_unfold limit st :
  (get_leaderboard limit st).1
  = match int_keys (notes (ensure_loaded st).2) with
    | Ok pairs => Ok (slice_to (sorted_desc snd pairs) limit)
    | Raise e => Raise e
    end.
Proof.
  unfold get_leaderboard, bind, gets, lift, ret.
  destruct (ensure_loaded_frame st) as (H1 & _).
  destruct (ensure_loaded st) as [r st1]. simpl in *. subst r.
  by destruct (int_keys (notes st1)).
Qed.

(** C8, as the code has it.  When every key of the store is a decimal
    integer string and [limit] is not negative, [get_leaderboard]
    returns [min(limit, size)] pairs [(int(user), balance)]: the head
    of the store's pairs sorted by descending balance, so no pair left
    out has a higher balance than a pair returned, and pairs of equal
    balance come in the order the store has them. *)
Theorem get_leaderboard_top (limit : Z) (st : state) :
  let n := notes (ensure_loaded st).2 in
  Forall decimal n.*1 -> 0 <= limit ->
  exists pairs board rest,
    Forall2 (fun kv p => int_str kv.1 = Ok p.1 /\ kv.2 = p.2) n pairs /\
    (get_leaderboard limit st).1 = Ok board /\
    length board = Nat.min (Z.to_nat limit) (length n) /\
    board ++ rest ≡ₚ pairs /\
    StronglySorted (desc snd) (board ++ rest) /\
    (forall x y, x ∈ board -> y ∈ rest -> y.2 <= x.2) /\
    forall b, filter (fun p => p.2 = b) (board ++ rest)
              = filter (fun p => p.2 = b) pairs.
Proof.
  cbn zeta. intros Hkeys Hlimit.
  destruct (int_keys_decimal _ Hkeys) as (pairs & Hp & Hall).
  exists pairs, (take (Z.to_nat limit) (sorted_desc snd pairs)),
         (drop (Z.to_nat limit) (sorted_desc snd pairs)).
  rewrite take_drop. split_and!.
  - done.
  - by rewrite get_leaderboard_unfold, Hp, slice_to_nonneg.
  - rewrite length_take, sorted_desc_length.
    by rewrite <- (Forall2_length _ _ _ Hall).
  - apply sorted_desc_perm.
  - apply sorted_desc_sorted.
  - intros x y Hx Hy.
    pose proof (sorted_desc_sorted snd pairs) as Hs.
    rewrite <- (take_drop (Z.to_nat limit)) in Hs.
    by apply (StronglySorted_app_1_elem_of _ _ _ x y) in Hs.
  - intros b. apply sorted_desc_stable.
Qed.

Lemma get_leaderboard_top_witness :
  let st := State [("1", 50); ("2", 10); ("3", 30); ("4", 5); ("5", 30)]
                  true no_files [] [] [] [] in
  exists pairs board rest,
    Forall2 (fun kv p => int_str kv.1 = Ok p.1 /\ kv.2 = p.2) (notes st) pairs /\
    (get_leaderboard 3 st).1 = Ok board /\
    length board = Nat.min (Z.to_nat 3) (length (notes st)) /\
    board ++ rest ≡ₚ pairs /\
    StronglySorted (desc snd) (board ++ rest) /\
    (forall x y, x ∈ board -> y ∈ rest -> y.2 <= x.2) /\
    forall b, filter (fun p => p.2 = b) (board ++ rest)
              = filter (fun p => p.2 = b) pairs.
Proof.
  cbn zeta.
  apply (get_leaderboard_top 3
           (State [("1", 50); ("2", 10); ("3", 30); ("4", 5); ("5", 30)]
                  true no_files [] [] [] [])); [|lia].
  cbn. repeat (apply Forall_cons_2; [eexists; reflexivity|]). apply Forall_nil_2.
Defined.

(** The board of four users, as the command asks for the first three:
    the keys come back as integers. *)
Example get_leaderboard_three_of_four :
  (get_leaderboard 3 (State [("1", 50); ("2", 10); ("3", 30); ("4", 5)]
                            true no_files [] [] [] [])).1
  = Ok [(1, 50); (3, 30); (2, 10)].
Proof. done. Qed.

(** Equal balances stay in the order of the store. *)
Example get_leaderboard_ties :
  (get_leaderboard 3 (State [("9", 30); ("2", 50); ("3", 30); ("1", 30)]
                            true no_files [] [] [] [])).1
  = Ok [(2, 50); (9, 30); (3, 30)].
Proof. done. Qed.

(** The store of the specification's example, with the keys [a] to
    [d] it writes: [int("a")] raises, and no board is returned. *)
Lemma get_leaderboard_letters_raise :
  let st := State [("a", 50); ("b", 10); ("c", 30); ("d", 5)]
                  true no_files [] [] [] [] in
  (get_leaderboard 3 st).1 = Raise ValueError /\
  ~ (get_leaderboard 3 st).1 = Ok [(1, 50); (3, 30); (2, 10)] /\
  ~ exists board, (get_leaderboard 3 st).1 = Ok board.
Proof.
  cbn zeta. split_and!; [done|done|]. by intros [board H].
Qed.

(** A negative limit is a slice from the end: all but the last. *)
Example get_leaderboard_negative_limit :
  (get_leaderboard (-1) (State [("1", 50); ("2", 10); ("3", 30); ("4", 5)]
                               true no_files [] [] [] [])).1
  = Ok [(1, 50); (3, 30); (2, 10)].
Proof. done. Qed.

(** The keys [int] takes are not the ASCII numerals only, and not all
    that [str.strip] would clean: a key of digits of another script
    gives a row, and a key with a separator (31) before the digit makes
    the board raise. *)
Example get_leaderboard_key_forms :
  let b (l : list nat) := string_of_list_ascii (map ascii_of_nat l) in
  (get_leaderboard 3 (State [(b [217; 167]%nat, 1); (" 8 ", 2)]
                            true no_files [] [] [] [])).1
  = Ok [(8, 2); (7, 1)] /\
  (get_leaderboard 3 (State [(b [31; 53]%nat, 1)] true no_files [] [] [] [])).1
  = Raise ValueError.
Proof. by vm_compute. Qed.

(** C10.  [get_leaderboard] applies [int] to every key of the store:
    it raises [ValueError] as soon as one key is not a decimal integer
    string, and returns a board exactly when all of them are.  Such
    keys get into the store: [load_notes] keeps any key of the file. *)
Theorem get_leaderboard_partial (limit : Z) (st : state) :
  let n := notes (ensure_loaded st).2 in
  ((exists k, k ∈ n.*1 /\ ~ decimal k) ->
   (get_leaderboard limit st).1 = Raise ValueError) /\
  ((exists board, (get_leaderboard limit st).1 = Ok board) <->
   Forall decimal n.*1) /\
  notes (load_notes (init (Files (Some (Doc (JObj [("a", JInt 50)]))) None None)
                          [])).2 = [("a", 50)] /\
  (get_leaderboard limit
     (init (Files (Some (Doc (JObj [("a", JInt 50)]))) None None) [])).1
  = Raise ValueError.
Proof.
  cbn zeta.
  assert (forall k, k ∈ (notes (ensure_loaded st).2).*1 -> ~ decimal k ->
          (get_leaderboard limit st).1 = Raise ValueError) as Hraise.
  { intros k Hin Hk. rewrite get_leaderboard_unfold.
    rewrite (int_keys_raises _ k Hin); [done|].
    destruct (int_str k) as [z|e] eqn:E; [exfalso; apply Hk; by exists z|].
    by rewrite (int_str_raises _ _ E). }
  split_and!.
  - intros (k & Hin & Hk). by eapply Hraise.
  - split.
    + intros [board Hb]. apply Forall_forall. intros k Hin.
      destruct (int_str k) as [z|e] eqn:E; [by exists z|].
      rewrite (Hraise k Hin) in Hb; [done|]. intros [z Hz]. congruence.
    + intros Hall. destruct (int_keys_decimal _ Hall) as (pairs & Hp & _).
      rewrite get_leaderboard_unfold, Hp. by eexists.
  - done.
  - by rewrite get_leaderboard_unfold.
Qed.

(* ================================================================== *)
(** * The ledger: concurrent mutations                                 *)
(* ================================================================== *)

Section TasksFacts.
Import Tasks.

(** Where a task stands with respect to the lock: outside a block,
    inside one, or inside one with [old_total] read. *)
Inductive phase : Type := Outside | Inside | Read.

(** What is left of a task's code fits its phase: blocks are entered
    and left in turn, and a store follows a load in the same block. *)
Fixpoint fits (ph : phase) (c : list instr) : bool :=
  match c, ph with
  | [], Outside => true
  | Acquire :: c', Outside => fits Inside c'
  | Release :: c', (Inside | Read) => fits Outside c'
  | Load :: c', (Inside | Read) => fits Read c'
  | (StoreAdd _ | StoreSet _) :: c', Read => fits Inside c'
  | Persist :: c', Inside => fits Inside c'
  | Persist :: c', Read => fits Read c'
  | _, _ => false
  end.

(** The next statement is a store. *)
Definition at_store (c : list instr) : bool :=
  match c with
  | (StoreAdd _ | StoreSet _) :: _ => true
  | _ => false
  end.

(** The next statement is inside a block. *)
Definition in_block (c : list instr) : bool :=
  match c with
  | [] | Acquire :: _ => false
  | _ => true
  end.

Definition balance_of (c : config) (u : Z) : Z := dict_get_or (mem c) (str_int u) 0.

(** The invariant of the lock: a task is inside a block exactly when
    it owns the lock, and the [old_total] it has read is still the
    balance in the notes. *)
Definition coherent (c : config) : Prop :=
  forall i t, pool c !! i = Some t ->
    exists ph, fits ph (code t) = true /\
               (owner c = Some i <-> ph <> Outside) /\
               (ph = Read -> old_total t = balance_of c (user t)).

Lemma start_coherent n calls outcomes :
  Forall (fun call => fits Outside call.2 = true) calls ->
  coherent (start n calls outcomes).
Proof.
  intros Hall i t Hi. unfold start in Hi. simpl in Hi.
  apply list_lookup_fmap_Some in Hi as (call & -> & Hcall).
  exists Outside. split_and!; [|done|done].
  rewrite Forall_forall in Hall. apply Hall. by eapply list_elem_of_lookup_2.
Qed.

Lemma fits_in_block ph c : fits ph c = true -> in_block c = true -> ph <> Outside.
Proof. destruct c as [|[]], ph; simpl; congruence. Qed.

Lemma fits_at_store ph c : fits ph c = true -> at_store c = true -> ph = Read.
Proof. destruct c as [|[]], ph; simpl; congruence. Qed.

Lemma step_coherent i c c' : coherent c -> step i c = Some c' -> coherent c'.
Proof.
  intros Hc Hstep. unfold step in Hstep.
  destruct (pool c !! i) as [t|] eqn:Hi; [|done].
  destruct (Hc i t Hi) as (ph & Hfits & Hown & Hread).
  assert (i < length (pool c))%nat as Hlt by by eapply lookup_lt_Some.
  assert (forall j tj, j <> i -> pool c !! j = Some tj -> owner c = Some i ->
                       fits Outside (code tj) = true) as Hothers.
  { intros j tj Hne Hj Ho. destruct (Hc j tj Hj) as (phj & Hfj & Hoj & _).
    destruct phj; [done| |]; exfalso;
      (assert (owner c = Some j) as Ho' by (by apply Hoj)); congruence. }
  destruct (code t) as [|ins rest] eqn:Hcode; [done|].
  destruct ins; simpl in Hstep.
  - (* Acquire *)
    destruct (owner c) as [o|] eqn:Ho; [done|]. injection Hstep as <-.
    intros j tj Hj. simpl in *.
    destruct (decide (j = i)) as [->|Hne].
    + rewrite list_lookup_insert_eq in Hj by done. injection Hj as <-. simpl.
      destruct ph; try done. exists Inside. split_and!; done.
    + rewrite list_lookup_insert_ne in Hj by done.
      destruct (Hc j tj Hj) as (phj & Hfj & Hoj & Hrj).
      exists phj. split_and!; [done| |done].
      rewrite Ho in Hoj. split; [intros [= ->]; done|]. intros H. by apply Hoj in H.
  - (* Release *)
    case_bool_decide as Ho; [|done]. injection Hstep as <-.
    intros j tj Hj. simpl in *.
    destruct (decide (j = i)) as [->|Hne].
    + rewrite list_lookup_insert_eq in Hj by done. injection Hj as <-. simpl.
      exists Outside. split_and!; [by destruct ph|done|done].
    + rewrite list_lookup_insert_ne in Hj by done.
      exists Outside. split_and!; [by eapply Hothers|done|done].
  - (* Load *)
    injection Hstep as <-. intros j tj Hj. simpl in *.
    destruct (decide (j = i)) as [->|Hne].
    + rewrite list_lookup_insert_eq in Hj by done. injection Hj as <-. simpl.
      exists Read. split_and!; [by destruct ph| |done].
      split; [done|]. intros _. apply Hown. by destruct ph.
    + rewrite list_lookup_insert_ne in Hj by done. by apply Hc.
  - (* StoreAdd *)
    injection Hstep as <-. intros j tj Hj. simpl in *.
    assert (ph = Read) as -> by (by destruct ph).
    destruct (decide (j = i)) as [->|Hne].
    + rewrite list_lookup_insert_eq in Hj by done. injection Hj as <-. simpl.
      exists Inside. split_and!; [done| |done]. split; [done|]. intros _. by apply Hown.
    + rewrite list_lookup_insert_ne in Hj by done.
      exists Outside. split_and!; [|split; [|done]|done].
      * eapply Hothers; [done..|]. by apply Hown.
      * intros Ho. assert (owner c = Some i) by (by apply Hown). congruence.
  - (* StoreSet *)
    injection Hstep as <-. intros j tj Hj. simpl in *.
    assert (ph = Read) as -> by (by destruct ph).
    destruct (decide (j = i)) as [->|Hne].
    + rewrite list_lookup_insert_eq in Hj by done. injection Hj as <-. simpl.
      exists Inside. split_and!; [done| |done]. split; [done|]. intros _. by apply Hown.
    + rewrite list_lookup_insert_ne in Hj by done.
      exists Outside. split_and!; [|split; [|done]|done].
      * eapply Hothers; [done..|]. by apply Hown.
      * intros Ho. assert (owner c = Some i) by (by apply Hown). congruence.
  - (* Persist *)
    assert (exists d later,
      c' = Config (mem c) (owner c)
                  (<[i := Task (user t) rest (old_total t)]> (pool c)) d
                  (history c ++ [(i, Persist)]) later) as (d & later & ->)
      by (destruct (saves c) as [|ok later]; injection Hstep as <-;
          by eexists _, _).
    intros j tj Hj. simpl in *.
    destruct (decide (j = i)) as [->|Hne].
    + rewrite list_lookup_insert_eq in Hj by done. injection Hj as <-. simpl.
      exists ph. split_and!; [by destruct ph|done|done].
    + rewrite list_lookup_insert_ne in Hj by done. by apply Hc.
Qed.

Lemma run_coherent schedule : forall c c',
  coherent c -> run schedule c = Some c' -> coherent c'.
Proof.
  induction schedule as [|i schedule IH]; intros c c' Hc Hrun; simpl in Hrun.
  - by injection Hrun as <-.
  - destruct (step i c) as [c1|] eqn:Hstep; [|done].
    eapply IH; [|done]. by eapply step_coherent.
Qed.

(** ** No update is lost *)

(** The amounts the rest of a task's code still adds. *)
Fixpoint pending (c : list instr) : Z :=
  match c with
  | [] => 0
  | StoreAdd amount :: c' => amount + pending c'
  | _ :: c' => pending c'
  end.

(** The code only adds, and no negative amount. *)
Fixpoint adds_only (c : list instr) : bool :=
  match c with
  | [] => true
  | StoreAdd amount :: c' => Z.leb 0 amount && adds_only c'
  | StoreSet _ :: _ => false
  | _ :: c' => adds_only c'
  end.

(** What the tasks under way still add, all together. *)
Definition owed (p : list task) : Z := foldr (fun t acc => pending (code t) + acc) 0 p.

Lemma owed_insert p : forall i t t',
  p !! i = Some t -> owed (<[i := t']> p) = owed p - pending (code t) + pending (code t').
Proof.
  induction p as [|t0 p IH]; intros [|i] t t' Hi; try done; simpl in *.
  - injection Hi as ->. lia.
  - rewrite (IH i t t' Hi). lia.
Qed.

Lemma owed_finished p : Forall (fun t => code t = []) p -> owed p = 0.
Proof.
  induction 1 as [|t p Ht _ IH]; [done|]. simpl. rewrite Ht, IH. done.
Qed.

(** The invariant of the count, for tasks that all add to the balance
    of [u]: the balance and what is still owed add up to [total]. *)
Definition counted (u total : Z) (c : config) : Prop :=
  0 <= balance_of c u /\
  balance_of c u + owed (pool c) = total /\
  Forall (fun t => user t = u /\ adds_only (code t) = true) (pool c).

Lemma step_counted u total i c c' :
  coherent c -> counted u total c -> step i c = Some c' -> counted u total c'.
Proof.
  intros Hc (Hb & Hsum & Hall) Hstep. unfold step in Hstep.
  destruct (pool c !! i) as [t|] eqn:Hi; [|done].
  destruct (Hc i t Hi) as (ph & Hfits & Hown & Hread).
  pose proof Hall as Hall'. rewrite Forall_forall in Hall'.
  destruct (Hall' t) as [Hu Hadds]; [by eapply list_elem_of_lookup_2|].
  assert (forall t', user t' = u -> adds_only (code t') = true ->
            Forall (fun t => user t = u /\ adds_only (code t) = true)
                   (<[i := t']> (pool c))) as Hins.
  { intros t' ? ?. apply Forall_insert; done. }
  destruct (code t) as [|ins rest] eqn:Hcode; [done|].
  destruct ins; simpl in Hstep.
  - destruct (owner c); [done|]. injection Hstep as <-.
    unfold counted, balance_of in *. simpl in *.
    rewrite (owed_insert _ _ _ _ Hi), Hcode. simpl. split_and!; [done|lia|by apply Hins].
  - case_bool_decide; [|done]. injection Hstep as <-.
    unfold counted, balance_of in *. simpl in *.
    rewrite (owed_insert _ _ _ _ Hi), Hcode. simpl. split_and!; [done|lia|by apply Hins].
  - injection Hstep as <-.
    unfold counted, balance_of in *. simpl in *.
    rewrite (owed_insert _ _ _ _ Hi), Hcode. simpl. split_and!; [done|lia|by apply Hins].
  - injection Hstep as <-.
    assert (ph = Read) as -> by (by destruct ph).
    specialize (Hread eq_refl). rewrite Hu in Hread.
    simpl in Hadds. apply andb_true_iff in Hadds as [Hamount Hadds].
    apply Z.leb_le in Hamount.
    unfold counted, balance_of in *. simpl in *.
    rewrite (owed_insert _ _ _ _ Hi), Hcode, Hu, dict_get_or_set_eq. simpl.
    split_and!; [lia|lia|by apply Hins].
  - done.
  - assert (exists d later,
      c' = Config (mem c) (owner c)
                  (<[i := Task (user t) rest (old_total t)]> (pool c)) d
                  (history c ++ [(i, Persist)]) later) as (d & later & ->)
      by (destruct (saves c) as [|ok later]; injection Hstep as <-;
          by eexists _, _).
    unfold counted, balance_of in *. simpl in *.
    rewrite (owed_insert _ _ _ _ Hi), Hcode. simpl. split_and!; [done|lia|by apply Hins].
Qed.

Lemma run_counted u total schedule : forall c c',
  coherent c -> counted u total c -> run schedule c = Some c' ->
  coherent c' /\ counted u total c'.
Proof.
  induction schedule as [|i schedule IH]; intros c c' Hc Hk Hrun; simpl in Hrun.
  - by injection Hrun as <-.
  - destruct (step i c) as [c1|] eqn:Hstep; [|done].
    eapply IH; [| |done]; [by eapply step_coherent|by eapply step_counted].
Qed.

(** The calls [add_nyx_notes(u, d)], one for each [d]. *)
Definition adds (u : Z) (ds : list Z) : list (Z * list instr) :=
  (fun d => (u, add_code d)) <$> ds.

Definition sum_of (ds : list Z) : Z := foldr Z.add 0 ds.

Lemma owed_adds u ds : owed (spawn <$> adds u ds) = sum_of ds.
Proof.
  induction ds as [|d ds IH]; [done|].
  change (owed (spawn <$> adds u (d :: ds)))
    with (pending (add_code d) + owed (spawn <$> adds u ds)).
  rewrite IH. simpl. lia.
Qed.

Lemma start_counted n u ds outcomes :
  0 <= dict_get_or n (str_int u) 0 -> Forall (fun d => 0 <= d) ds ->
  counted u (dict_get_or n (str_int u) 0 + sum_of ds)
          (start n (adds u ds) outcomes).
Proof.
  intros Hb Hds. unfold counted, balance_of, start. cbn [mem pool].
  split_and!; [done|by rewrite owed_adds|].
  unfold adds. rewrite <- list_fmap_compose. apply Forall_fmap.
  eapply Forall_impl; [exact Hds|]. intros d Hd. simpl.
  split; [done|]. rewrite andb_true_r. by apply Z.leb_le.
Qed.

Lemma adds_fit u ds : Forall (fun call => fits Outside call.2 = true) (adds u ds).
Proof. unfold adds. apply Forall_fmap. by apply Forall_true. Qed.

Lemma mutation_fits (call : Z * list instr) :
  (exists d, call.2 = add_code d \/ call.2 = set_code d) -> fits Outside call.2 = true.
Proof. by intros (d & [-> | ->]). Qed.

(** C4, as the code has it.  A mutation holds the lock of the cog from
    its read of the balance to its write, lets it go, and takes it
    again (in [save_notes]) to persist.  So, however the calls of
    [add_nyx_notes] and [set_nyx_notes] are interleaved and whichever
    of their saves fail: a task inside a block owns the lock, hence no
    two are inside a block at once; the balance a task has read is
    still the one in the notes when it writes; and once calls that add
    non-negative amounts to the non-negative balance of one user have
    all returned, the balance is the sum of the amounts above where it
    started: 500 above for a hundred calls of 5. *)
Theorem lock_serializes_mutations (n0 : dict Z) (calls : list (Z * list instr))
    (outcomes : list bool) (schedule : list nat) (c : config) :
  Forall (fun call => exists d, call.2 = add_code d \/ call.2 = set_code d) calls ->
  run schedule (start n0 calls outcomes) = Some c ->
  (forall i t, pool c !! i = Some t -> in_block (code t) = true ->
               owner c = Some i) /\
  (forall i j ti tj, pool c !! i = Some ti -> pool c !! j = Some tj ->
                     in_block (code ti) = true -> in_block (code tj) = true ->
                     i = j) /\
  (forall i t, pool c !! i = Some t -> at_store (code t) = true ->
               old_total t = balance_of c (user t)) /\
  (forall u ds, calls = adds u ds -> Forall (fun d => 0 <= d) ds ->
                0 <= dict_get_or n0 (str_int u) 0 -> finished c ->
                balance_of c u = dict_get_or n0 (str_int u) 0 + sum_of ds) /\
  (forall u, calls = adds u (replicate 100 5) ->
             0 <= dict_get_or n0 (str_int u) 0 -> finished c ->
             balance_of c u = dict_get_or n0 (str_int u) 0 + 500).
Proof.
  intros Hcalls Hrun.
  assert (coherent (start n0 calls outcomes)) as Hc0.
  { apply start_coherent. eapply Forall_impl; [exact Hcalls|].
    intros call. apply mutation_fits. }
  pose proof (run_coherent _ _ _ Hc0 Hrun) as Hc.
  assert (forall i t, pool c !! i = Some t -> in_block (code t) = true ->
                      owner c = Some i) as Hmutex.
  { intros i t Hi Hin. destruct (Hc i t Hi) as (ph & Hfits & Hown & _).
    apply Hown. by eapply fits_in_block. }
  assert (forall u ds, calls = adds u ds -> Forall (fun d => 0 <= d) ds ->
            0 <= dict_get_or n0 (str_int u) 0 -> finished c ->
            balance_of c u = dict_get_or n0 (str_int u) 0 + sum_of ds) as Hsum.
  { intros u ds -> Hds Hb Hfin.
    destruct (run_counted u _ _ _ _ Hc0 (start_counted n0 u ds outcomes Hb Hds) Hrun)
      as (_ & _ & Htotal & _).
    rewrite (owed_finished _ Hfin) in Htotal. lia. }
  split_and!.
  - exact Hmutex.
  - intros i j ti tj Hi Hj Hini Hinj.
    pose proof (Hmutex i ti Hi Hini). pose proof (Hmutex j tj Hj Hinj). congruence.
  - intros i t Hi Hat. destruct (Hc i t Hi) as (ph & Hfits & _ & Hread).
    apply Hread. by eapply fits_at_store.
  - exact Hsum.
  - intros u Hu Hb Hfin. rewrite (Hsum u (replicate 100 5) Hu); [done| |done|done].
    by apply Forall_replicate.
Qed.

(** Three calls [add_nyx_notes(7, 5)], the second and the third
    arriving while the first one saves.  The first call runs to its
    end; the second changes the notes and lets the lock go; the third,
    next in line for the lock, changes the notes; then the second
    saves, and fails to, then the third. *)
Definition three_adds : config :=
  start [("7", 10)] (adds 7 [5; 5; 5]) [true; false; true].

Definition queued_schedule : list nat :=
  [0; 0; 0; 0; 0; 0; 0; 1; 1; 1; 1; 2; 2; 2; 2; 1; 1; 1; 2; 2; 2]%nat.

Lemma lock_serializes_mutations_witness :
  exists c, run queued_schedule three_adds = Some c /\ finished c /\
            balance_of c 7 = 10 + sum_of [5; 5; 5].
Proof.
  assert (exists c, run queued_schedule three_adds = Some c /\ finished c)
    as (c & Hrun & Hfin).
  { eexists. split; [vm_compute; reflexivity|].
    repeat (apply Forall_cons_2; [reflexivity|]). apply Forall_nil_2. }
  exists c. split; [exact Hrun|]. split; [exact Hfin|].
  refine (proj1 (proj2 (proj2 (proj2
            (lock_serializes_mutations [("7", 10)] (adds 7 [5; 5; 5])
               [true; false; true] queued_schedule c _ Hrun)))) 7 [5; 5; 5]
            eq_refl _ _ Hfin).
  - repeat (apply Forall_cons_2; [by exists 5; left|]). apply Forall_nil_2.
  - repeat (apply Forall_cons_2; [lia|]). apply Forall_nil_2.
  - vm_compute. discriminate.
Defined.

(** A mutation under way that has read the balance and has not
    persisted yet. *)
Definition between_read_and_persist (c : list instr) : bool :=
  negb (existsb (fun ins => match ins with Load => true | _ => false end) c)
  && existsb (fun ins => match ins with Persist => true | _ => false end) c.

(** C4 as it is stated: the lock is held from the read to the persist. *)
Definition lock_held_throughout (c0 : config) : Prop :=
  forall schedule c i t,
    run schedule c0 = Some c -> pool c !! i = Some t ->
    between_read_and_persist (code t) = true -> owner c = Some i.

(** The lock is free between the write of a mutation and its persist,
    and the read and the write of the next mutation run in between. *)
Lemma lock_released_before_persist :
  ~ lock_held_throughout three_adds /\
  exists c, run queued_schedule three_adds = Some c /\
    history c =
      [(0, Acquire); (0, Load); (0, StoreAdd 5); (0, Release);
       (0, Acquire); (0, Persist); (0, Release);
       (1, Acquire); (1, Load); (1, StoreAdd 5); (1, Release);
       (2, Acquire); (2, Load); (2, StoreAdd 5); (2, Release);
       (1, Acquire); (1, Persist); (1, Release);
       (2, Acquire); (2, Persist); (2, Release)]%nat.
Proof.
  split.
  - intros H.
    assert (exists c, run [0; 0; 0; 0]%nat three_adds = Some c /\
              pool c !! 0%nat = Some (Task 7 [Acquire; Persist; Release] 10) /\
              owner c = None) as (c & Hrun & Hpool & Hfree).
    { eexists. split; [vm_compute; reflexivity|]. split; reflexivity. }
    specialize (H _ c 0%nat _ Hrun Hpool eq_refl). congruence.
  - eexists. split; [vm_compute; reflexivity|]. reflexivity.
Qed.

(** A call whose save fails returns all the same, with its amount in
    the notes and the notes file as it was: the second of the three
    saves above fails, and the file takes the notes with the third. *)
Example failed_save_returns :
  exists c c',
    run [0; 0; 0; 0; 0; 0; 0]%nat (start [("7", 10)] (adds 7 [5]) [false]) = Some c /\
    finished c /\ mem c = [("7", 15)] /\ on_disk c = None /\
    run (take 18 queued_schedule) three_adds = Some c' /\
    mem c' = [("7", 25)] /\ on_disk c' = Some [("7", 15)].
Proof.
  eexists _, _. split; [vm_compute; reflexivity|].
  split; [by repeat (apply Forall_cons_2; [reflexivity|]); apply Forall_nil_2|].
  split; [reflexivity|]. split; [reflexivity|].
  split; [vm_compute; reflexivity|]. by split.
Qed.

End TasksFacts.

(* ================================================================== *)
(** * Sessions: starting a chat                                        *)
(* ================================================================== *)

Section AsylumChatFacts.
Import AsylumChat.

Definition allowed (channel : Z) : Prop := channel ∈ ASYLUM_CHANNEL_IDS.

Lemma allowed_existsb channel :
  existsb (Z.eqb channel) ASYLUM_CHANNEL_IDS = true <-> allowed channel.
Proof.
  unfold allowed. rewrite existsb_exists. split.
  - intros (x & Hin & Hx). apply Z.eqb_eq in Hx. subst. by apply list_elem_of_In.
  - intros Hin. exists channel. split; [by apply list_elem_of_In|apply Z.eqb_refl].
Qed.

(** The command run alone.  In an asylum channel it is rejected as
    [ActiveSession], and the registry left as it is, exactly when the
    registry has a record flagged active under the channel's key; it
    creates the record exactly when there is no such record; outside
    the asylum channels it changes nothing.  The record it creates is
    flagged active, so a start that comes after it is rejected. *)
Theorem asylumchat_start (channel author now : Z) (sessions : registry) :
  let key := session_key channel in
  let r := asylumchat channel author now sessions in
  let has_active := exists s, sessions !! key = Some s /\ active s = true in
  (r.1 = ActiveSession <-> allowed channel /\ has_active) /\
  (r.1 = ChoosePersona <-> allowed channel /\ ~ has_active) /\
  (r.1 = OnlyInAsylumChannels <-> ~ allowed channel) /\
  (r.1 = ChoosePersona ->
   r.2 = <[key := new_session channel author now]> sessions) /\
  (r.1 <> ChoosePersona -> r.2 = sessions) /\
  (sessions !! key = None -> allowed channel ->
   r = (ChoosePersona, <[key := new_session channel author now]> sessions)) /\
  (forall author' now', allowed channel ->
     asylumchat channel author' now' r.2 = (ActiveSession, r.2)).
Proof.
  cbn zeta. unfold asylumchat, asylumchat_guard, asylumchat_create.
  pose proof (allowed_existsb channel) as Hallowed.
  destruct (existsb (Z.eqb channel) ASYLUM_CHANNEL_IDS) eqn:Hin; cbn [negb].
  - assert (allowed channel) as Ha by (by apply Hallowed).
    destruct (sessions !! session_key channel) as [s|] eqn:Hs;
      [destruct (active s) eqn:Hact|]; cbn [fst snd]; split_and!; try done.
    all: try (intros author' now' _; first
                [by rewrite Hs, Hact
                |by rewrite (lookup_insert_eq sessions (session_key channel))]).
    all: try (split; [done|]; intros [_ (s' & [= <-] & Hs')]; congruence).
    all: try (split; [done|]; by intros [_ (s' & [=] & _)]).
    all: try (split; [done|]; intros Hno; by apply Hno in Ha).
    + split; [intros _; split; [done|by exists s]|done].
    + split; [done|]. intros [_ Hno]. exfalso. apply Hno. by exists s.
    + split; [intros _; split; [done|]|done].
      intros (s' & [= <-] & Hs'). congruence.
    + split; [intros _; split; [done|]|done]. by intros (s' & [=] & _).
  - assert (~ allowed channel) as Hna.
    { intros Ha. destruct Hallowed as [_ Hback]. by apply Hback in Ha. }
    cbn [fst snd].
    split_and!; [naive_solver|naive_solver|naive_solver|done|done|done|done].
Qed.

(** The records of the cog are all flagged active: the start command
    writes no other, and nothing clears the flag. *)
Definition all_active (sessions : registry) : Prop :=
  forall k s, sessions !! k = Some s -> active s = true.

(** On such a registry a start run alone does what is asked of it: it
    is rejected exactly when the channel has a record, creates one only
    when there is none, and leaves a registry of the same kind. *)
Lemma asylumchat_alone (channel author now : Z) (sessions : registry) :
  all_active sessions -> allowed channel ->
  let key := session_key channel in
  let r := asylumchat channel author now sessions in
  (r.1 = ActiveSession <-> is_Some (sessions !! key)) /\
  (r.1 = ActiveSession -> r.2 = sessions) /\
  (r.2 <> sessions -> sessions !! key = None) /\
  all_active r.2.
Proof.
  intros Hall Ha. apply allowed_existsb in Ha. cbn zeta.
  unfold asylumchat, asylumchat_guard, asylumchat_create. rewrite Ha. cbn [negb].
  destruct (sessions !! session_key channel) as [s|] eqn:Hs.
  - rewrite (Hall _ _ Hs). cbn [fst snd]. by split_and!.
  - cbn [fst snd]. split_and!.
    + split; [done|]. by intros [? ?].
    + done.
    + done.
    + intros k s Hk. destruct (decide (k = session_key channel)) as [->|Hne].
      * rewrite lookup_insert_eq in Hk. by injection Hk as <-.
      * rewrite lookup_insert_ne in Hk by done. by eapply Hall.
Qed.

(** The command run alone is its two stretches one after the other. *)
Lemma asylumchat_stretches (channel author now : Z) (sessions : registry) :
  let r := asylumchat channel author now sessions in
  let call := StartCall channel author now in
  run_starts (match asylumchat_guard channel sessions with
              | Some _ => [0]
              | None => [0; 0]
              end)%nat
             ([call Guard], sessions)
  = Some ([call (Replied r.1)], r.2).
Proof.
  cbn zeta. unfold asylumchat.
  destruct (asylumchat_guard channel sessions) as [r|] eqn:Hg;
    cbn [run_starts start_step fst snd lookup list_lookup stage_of in_channel
         by_author at_time]; by rewrite ?Hg.
Qed.

(** C9.  The defect.  The guard of [!asylumchat] and the creation of
    the record are not one step: the command awaits the sending of
    the menu in between.  Two starts in a channel without session,
    run one after the other, end as asked: the second is rejected and
    the record is the first one's.  But when the second arrives while
    the first sends its menu, both pass the guard, both are answered
    with the menu, and the second writes its record over the one the
    first has made, which is there, flagged active, at that time. *)
Theorem asylumchat_concurrent_starts :
  let channel := 1388158646973632685 in
  let key := session_key channel in
  let first := StartCall channel 7 0 in
  let second := StartCall channel 8 1 in
  let calls := [first Guard; second Guard] in
  run_starts [0; 0; 1]%nat (calls, ∅)
  = Some ([first (Replied ChoosePersona); second (Replied ActiveSession)],
          {[ key := new_session channel 7 0 ]}) /\
  run_starts [0; 1; 0]%nat (calls, ∅)
  = Some ([first (Replied ChoosePersona); second Send],
          {[ key := new_session channel 7 0 ]}) /\
  run_starts [0; 1; 0; 1]%nat (calls, ∅)
  = Some ([first (Replied ChoosePersona); second (Replied ChoosePersona)],
          {[ key := new_session channel 8 1 ]}) /\
  active (new_session channel 7 0) = true.
Proof.
  cbn zeta.
  set (channel := 1388158646973632685).
  assert (asylumchat_guard channel ∅ = None) as Hempty by done.
  assert (forall s, active s = true ->
            asylumchat_guard channel {[ session_key channel := s ]}
            = Some ActiveSession) as Hfull.
  { intros s Hs. unfold asylumchat_guard.
    replace (existsb (Z.eqb channel) ASYLUM_CHANNEL_IDS) with true by done.
    cbn [negb]. by rewrite lookup_singleton_eq, Hs. }
  assert (forall a n, asylumchat_create channel a n ∅
                      = {[ session_key channel := new_session channel a n ]}) as Hone.
  { intros a n. unfold asylumchat_create. apply insert_empty. }
  assert (forall a n s, asylumchat_create channel a n {[ session_key channel := s ]}
                        = {[ session_key channel := new_session channel a n ]}) as Hover.
  { intros a n s. unfold asylumchat_create. apply insert_singleton_eq. }
  split_and!; [| | |done];
    cbn [run_starts start_step fst snd lookup list_lookup stage_of in_channel
         by_author at_time insert list_insert];
    rewrite ?Hempty; cbn [run_starts start_step fst snd lookup list_lookup
         stage_of in_channel by_author at_time insert list_insert];
    rewrite ?Hone, ?Hempty; cbn [run_starts start_step fst snd lookup list_lookup
         stage_of in_channel by_author at_time insert list_insert];
    rewrite ?Hfull, ?Hover by done; cbn [run_starts start_step fst snd lookup
         list_lookup stage_of in_channel by_author at_time insert list_insert];
    rewrite ?Hfull, ?Hover by done; done.
Qed.

End AsylumChatFacts.

(* ================================================================== *)
(** * The keys of the store: [str(user_id)] and [int(uid)]             *)
(* ================================================================== *)

Section KeyFacts.

Implicit Types (d : Decimal.uint) (cs : list ascii).

Definition chars (d : Decimal.uint) : list ascii :=
  list_ascii_of_string (NilEmpty.string_of_uint d).

Definition printable (c : ascii) : Prop :=
  (N_of_ascii c < 127)%N /\ is_space c = false /\
  c <> "-"%char /\ c <> "+"%char.

Lemma chars_printable d : Forall printable (chars d).
Proof.
  unfold chars.
  induction d; simpl; [apply Forall_nil_2|..];
    (apply Forall_cons_2; [by split_and!|done]).
Qed.

Lemma lstrip_no_space cs :
  Forall (fun c => is_space c = false) cs -> lstrip cs = cs.
Proof. destruct 1 as [|c cs Hc _]; simpl; [done|by rewrite Hc]. Qed.

Lemma strip_no_space cs :
  Forall (fun c => is_space c = false) cs -> strip cs = cs.
Proof.
  intros H. unfold strip. rewrite (lstrip_no_space cs H).
  rewrite lstrip_no_space; [apply rev_involutive|].
  apply Forall_forall. intros c Hc. rewrite Forall_forall in H.
  apply H. apply list_elem_of_In. apply in_rev. by apply list_elem_of_In.
Qed.

(** A text of characters below 127 is its own ASCII form. *)
Lemma transform_ascii cs :
  Forall (fun c => (N_of_ascii c < 127)%N) cs ->
  transform (code_points cs) = Some cs.
Proof.
  induction 1 as [|c cs Hc _ IH]; [done|].
  cbn [code_points]. cbv zeta.
  replace (N_of_ascii c <? 128)%N with true by (symmetry; apply N.ltb_lt; lia).
  cbn [transform fst]. rewrite IH. unfold to_ascii.
  replace (N_of_ascii c <? 127)%N with true by (symmetry; by apply N.ltb_lt).
  by rewrite ascii_N_embedding.
Qed.

(** The digits of a numeral, read after an accumulator [acc > 0]. *)
Lemma digits_chars_acc d : forall (b : bool) (acc : positive),
  digits true (Zpos acc) (chars d) = Some (Zpos (Pos.of_uint_acc d acc)).
Proof.
  unfold chars.
  induction d; intros b acc; simpl; [done|..];
    rewrite <- (IHd true); f_equal; vm_compute (Z.of_nat _); lia.
Qed.

(** The digits of a numeral, read from the start. *)
Lemma digits_chars d : forall (b : bool),
  d <> Decimal.Nil \/ b = true ->
  digits b 0 (chars d) = Some (Z.of_N (Pos.of_uint d)).
Proof.
  unfold chars.
  induction d; intros b Hb; simpl;
    [by destruct Hb as [? | ->]
    |apply (IHd true); by right
    |match goal with
     | |- _ = Some (Z.pos (Pos.of_uint_acc _ ?k)) => exact (digits_chars_acc d true k)
     end ..].
Qed.

Lemma parse_body_printable cs :
  Forall printable cs -> parse_body cs = digits false 0 cs.
Proof.
  destruct 1 as [|c cs (_ & _ & Hm & Hp) _]; [done|].
  destruct c as [[] [] [] [] [] [] [] []]; done.
Qed.

Lemma printable_no_space cs :
  Forall printable cs -> Forall (fun c => is_space c = false) cs.
Proof. intros H. eapply Forall_impl; [exact H|]. by intros c (_ & ? & _). Qed.

Lemma printable_ascii cs :
  Forall printable cs -> Forall (fun c => (N_of_ascii c < 127)%N) cs.
Proof. intros H. eapply Forall_impl; [exact H|]. by intros c (? & _). Qed.

(** [int(str(n)) == n]: the key a mutation writes for a user is one
    [int] reads back as that user. *)
Lemma int_str_str_int (z : Z) : int_str (str_int z) = Ok z.
Proof.
  unfold int_str, str_int.
  destruct z as [|p|p]; [done|..];
    cbn [Z.to_int NilZero.string_of_int list_ascii_of_string];
    pose proof (Unsigned.to_uint_nonnil p) as Hnil;
    pose proof (Unsigned.of_to p) as Hval;
    assert (NilZero.string_of_uint (Pos.to_uint p)
            = NilEmpty.string_of_uint (Pos.to_uint p)) as ->
      by (by destruct (Pos.to_uint p));
    pose proof (chars_printable (Pos.to_uint p)) as Hpr;
    fold (chars (Pos.to_uint p)).
  - rewrite transform_ascii by by apply printable_ascii.
    rewrite strip_no_space by by apply printable_no_space.
    rewrite parse_body_printable by done.
    rewrite digits_chars by by left. by rewrite Hval.
  - rewrite (transform_ascii ("-"%char :: chars (Pos.to_uint p)))
      by (apply Forall_cons_2; [done|by apply printable_ascii]).
    rewrite strip_no_space
      by (apply Forall_cons_2; [done|by apply printable_no_space]).
    cbn [parse_body]. rewrite digits_chars by by left. by rewrite Hval.
Qed.

(** Two users never share a key. *)
Lemma str_int_inj (a b : Z) : str_int a = str_int b -> a = b.
Proof.
  intros H. apply (f_equal int_str) in H.
  rewrite !int_str_str_int in H. by injection H.
Qed.

Lemma decimal_str_int (z : Z) : decimal (str_int z).
Proof. exists z. apply int_str_str_int. Qed.

End KeyFacts.

(* ================================================================== *)
(** * The ledger: users, reads and restarts                            *)
(* ================================================================== *)

Lemma dict_set_set {V} (d : dict V) (k : string) (v w : V) :
  dict_set (dict_set d k v) k w = dict_set d k w.
Proof.
  induction d as [|[k' v'] d IH]; simpl.
  - by rewrite String.eqb_refl.
  - destruct (String.eqb k' k) eqn:E; simpl; rewrite E; [done|by rewrite IH].
Qed.

Lemma add_nyx_notes_notes u d st :
  notes (add_nyx_notes u d st).2
  = dict_set (notes (ensure_loaded st).2) (str_int u) (Z.max 0 (balance st u + d)).
Proof.
  rewrite add_nyx_notes_unfold. cbn zeta. simpl.
  match goal with |- context [save_notes ?s] =>
    by destruct (save_notes_frame s) as (_ & -> & _) end.
Qed.

Lemma set_nyx_notes_notes u v st :
  notes (set_nyx_notes u v st).2
  = dict_set (notes (ensure_loaded st).2) (str_int u) (Z.max 0 v).
Proof.
  rewrite set_nyx_notes_unfold. cbn zeta. simpl.
  match goal with |- context [save_notes ?s] =>
    by destruct (save_notes_frame s) as (_ & -> & _) end.
Qed.

Lemma set_nyx_notes_loaded u v st : _loaded (set_nyx_notes u v st).2 = true.
Proof.
  rewrite set_nyx_notes_unfold. cbn zeta. simpl.
  match goal with |- context [save_notes ?s] =>
    destruct (save_notes_frame s) as (_ & _ & ->) end.
  simpl. by destruct (ensure_loaded_frame st) as (_ & -> & _).
Qed.

Lemma ensure_loaded_twice st : (ensure_loaded (ensure_loaded st).2).2 = (ensure_loaded st).2.
Proof.
  rewrite ensure_loaded_idem; [done|].
  by destruct (ensure_loaded_frame st) as (_ & -> & _).
Qed.

Lemma add_nyx_notes_other u u' d st :
  u <> u' -> balance (add_nyx_notes u d st).2 u' = balance st u'.
Proof.
  intros Hne.
  assert (str_int u <> str_int u') as Hk by (intros H; by apply str_int_inj in H).
  rewrite balance_loaded by apply add_nyx_notes_loaded.
  rewrite add_nyx_notes_notes. by rewrite dict_get_or_set_ne.
Qed.

Lemma set_nyx_notes_other u u' v st :
  u <> u' -> balance (set_nyx_notes u v st).2 u' = balance st u'.
Proof.
  intros Hne.
  assert (str_int u <> str_int u') as Hk by (intros H; by apply str_int_inj in H).
  rewrite balance_loaded by apply set_nyx_notes_loaded.
  rewrite set_nyx_notes_notes. by rewrite dict_get_or_set_ne.
Qed.

(** X1.  A mutation for one user changes no other user's balance:
    after [add_nyx_notes(u, d)] or [set_nyx_notes(u, v)] every user
    [u'] other than [u] has the balance they had, for every script of
    failures of the save. *)
Theorem mutation_leaves_others (u u' d v : Z) (st : state) :
  u <> u' ->
  balance (add_nyx_notes u d st).2 u' = balance st u' /\
  balance (set_nyx_notes u v st).2 u' = balance st u' /\
  (get_nyx_notes u' (add_nyx_notes u d st).2).1 = (get_nyx_notes u' st).1 /\
  (get_nyx_notes u' (set_nyx_notes u v st).2).1 = (get_nyx_notes u' st).1.
Proof.
  intros Hne. rewrite !get_nyx_notes_unfold. simpl.
  by rewrite add_nyx_notes_other, set_nyx_notes_other.
Qed.

Lemma mutation_leaves_others_witness :
  let st := State [("7", 5); ("8", 12)] true no_files [IoFail false] [] [] [] in
  balance (add_nyx_notes 7 (-100) st).2 8 = 12 /\
  balance (set_nyx_notes 7 40 st).2 8 = 12.
Proof.
  cbn zeta.
  pose proof (mutation_leaves_others 7 8 (-100) 40
    (State [("7", 5); ("8", 12)] true no_files [IoFail false] [] [] [])) as H.
  destruct H as (Ha & Hs & _); [lia|]. by rewrite Ha, Hs.
Defined.

(** X2.  What follows a [set_nyx_notes(u, v)]: the balance read back is
    [max(0, v)]; an [add_nyx_notes(u, d)] counts from it; and a second
    set for the user leaves the notes a single set would (the key keeps
    its place in the dict). *)
Theorem set_nyx_notes_then (u v w d : Z) (st : state) :
  let s := (set_nyx_notes u v st).2 in
  (get_nyx_notes u s).1 = Ok (Z.max 0 v) /\
  (add_nyx_notes u d s).1 = Ok (Z.max 0 (Z.max 0 v + d)) /\
  notes (set_nyx_notes u w s).2 = notes (set_nyx_notes u w st).2.
Proof.
  cbn zeta.
  assert (balance (set_nyx_notes u v st).2 u = Z.max 0 v) as Hb.
  { rewrite balance_loaded by apply set_nyx_notes_loaded.
    rewrite set_nyx_notes_notes. by rewrite dict_get_or_set_eq. }
  split_and!.
  - by rewrite get_nyx_notes_unfold, Hb.
  - pose proof (add_nyx_notes_unfold u d (set_nyx_notes u v st).2) as H.
    cbn zeta in H. by rewrite H, Hb.
  - rewrite !set_nyx_notes_notes.
    rewrite (ensure_loaded_idem (set_nyx_notes u v st).2)
      by apply set_nyx_notes_loaded.
    simpl. rewrite set_nyx_notes_notes. apply dict_set_set.
Qed.

(** ** The leaderboard of a store filled through the interface *)

(** The dicts whose keys are the ones [str(user_id)] makes. *)
Definition canonical (n : dict Z) : Prop :=
  wf_dict n /\ Forall (fun k => exists z, k = str_int z) n.*1.

Lemma canonical_set n u v : canonical n -> canonical (dict_set n (str_int u) v).
Proof.
  intros (Hwf & Hk). split; [by apply dict_set_wf|].
  destruct (dict_get n (str_int u)) eqn:E.
  - rewrite dict_set_keys_in; [done|]. by rewrite E.
  - rewrite dict_set_keys_new by done.
    apply Forall_app. split; [done|]. apply Forall_cons_2; [by exists u|apply Forall_nil_2].
Qed.

Lemma int_keys_canonical (n : dict Z) :
  Forall (fun k => exists z, k = str_int z) n.*1 ->
  exists pairs, int_keys n = Ok pairs /\
                n = (fun p => (str_int p.1, p.2)) <$> pairs.
Proof.
  induction n as [|[k v] n IH]; intros H.
  - by exists [].
  - rewrite fmap_cons in H. apply Forall_cons in H as [(z & Hz) H].
    destruct (IH H) as (pairs & Hp & Hn). simpl in Hz. subst k.
    exists ((z, v) :: pairs). simpl. rewrite int_str_str_int, Hp.
    split; [done|]. by rewrite Hn at 1.
Qed.

Lemma slice_to_sublist {A} (l : list A) (n : Z) : sublist (slice_to l n) l.
Proof. unfold slice_to. destruct (Z.leb 0 n); apply sublist_take. Qed.

(** X3.  A store whose keys all come from [str(user_id)] stays one
    under [add_nyx_notes] and [set_nyx_notes], and on such a store
    [get_leaderboard] returns for every limit: no user has two rows,
    and a row [(z, v)] shows the balance [get_nyx_notes(z)] returns. *)
Theorem leaderboard_of_canonical_store (u d v limit : Z) (st : state) :
  canonical (notes (ensure_loaded st).2) ->
  canonical (notes (add_nyx_notes u d st).2) /\
  canonical (notes (set_nyx_notes u v st).2) /\
  exists board,
    (get_leaderboard limit st).1 = Ok board /\
    NoDup board.*1 /\
    forall z b, (z, b) ∈ board -> (get_nyx_notes z st).1 = Ok b.
Proof.
  intros Hc. split_and!.
  - rewrite add_nyx_notes_notes. by apply canonical_set.
  - rewrite set_nyx_notes_notes. by apply canonical_set.
  - destruct Hc as (Hwf & Hk).
    destruct (int_keys_canonical _ Hk) as (pairs & Hp & Hn).
    rewrite get_leaderboard_unfold, Hp. eexists. split; [done|].
    pose proof (slice_to_sublist (sorted_desc snd pairs) limit) as Hsub.
    pose proof (sorted_desc_perm snd pairs) as Hperm.
    assert (NoDup pairs.*1) as Hnd.
    { unfold wf_dict in Hwf. rewrite Hn in Hwf.
      assert (((fun p : Z * Z => (str_int p.1, p.2)) <$> pairs).*1
              = str_int <$> pairs.*1) as Heq
        by (by rewrite <- !list_fmap_compose).
      rewrite Heq in Hwf. by apply NoDup_fmap_1 in Hwf. }
    split.
    + eapply sublist_NoDup; [|apply (fmap_sublist fst), Hsub].
      by rewrite Hperm.
    + intros z b Hin. rewrite get_nyx_notes_unfold. simpl. f_equal.
      unfold balance, dict_get_or.
      assert ((z, b) ∈ pairs) as Hin'.
      { rewrite <- Hperm. eapply elem_of_sublist; [exact Hin|exact Hsub]. }
      erewrite dict_in_get; [done|done|].
      rewrite Hn. apply list_elem_of_fmap. by exists (z, b).
Qed.

Lemma leaderboard_of_canonical_store_witness :
  let st := State [("7", 5); ("8", 12)] true no_files [] [] [] [] in
  canonical (notes (add_nyx_notes 9 3 st).2) /\
  exists board, (get_leaderboard 1 st).1 = Ok board /\ NoDup board.*1.
Proof.
  cbn zeta.
  assert (canonical [("7", 5); ("8", 12)]) as Hc.
  { split.
    - by apply (bool_decide_unpack _).
    - apply Forall_cons_2; [by exists 7|].
      apply Forall_cons_2; [by exists 8|apply Forall_nil_2]. }
  destruct (leaderboard_of_canonical_store 9 3 0 1
    (State [("7", 5); ("8", 12)] true no_files [] [] [] []) Hc)
    as (Ha & _ & board & Hb & Hnd & _).
  split; [exact Ha|]. by exists board.
Defined.

(** X4.  The two reads write nothing: [get_nyx_notes] and
    [get_leaderboard] leave the files as they are (no content of the
    files is ever exposed by them), and on a loaded cog they leave the
    whole cog as it is and make no call to the operating system. *)
Theorem reads_leave_files (u limit : Z) (st : state) :
  let g := get_nyx_notes u st in
  let b := get_leaderboard limit st in
  disk g.2 = disk st /\ seen g.2 = seen st /\
  disk b.2 = disk st /\ seen b.2 = seen st /\
  (_loaded st = true ->
   g = (Ok (dict_get_or (notes st) (str_int u) 0), st) /\ b.2 = st).
Proof.
  cbn zeta.
  assert ((get_leaderboard limit st).2 = (ensure_loaded st).2) as Hb.
  { unfold get_leaderboard, bind, gets, lift, ret.
    destruct (ensure_loaded_frame st) as (H1 & _).
    destruct (ensure_loaded st) as [r st1]. simpl in *. subst r.
    by destruct (int_keys (notes st1)). }
  rewrite get_nyx_notes_unfold, Hb. simpl.
  destruct (ensure_loaded_frame st) as (_ & _ & Hd & Hs & Hl & _).
  split_and!; try done.
  intros Hloaded. rewrite balance_loaded by done. by rewrite (Hl Hloaded).
Qed.

(** ** Restarting the bot *)

(** The notes a new cog loads from the files [fs], when no call fails. *)
Definition restart (fs : files) : dict Z := notes (load_notes (init fs [])).2.

Lemma restart_fallback fs n :
  fallback fs = Some (Doc (json_of_notes n)) -> restart fs = set_all [] n.
Proof.
  intros Hf. unfold restart.
  pose proof (load_notes_from (init fs []) _ eq_refl (no_overflow_json_of_notes n)) as H.
  cbn zeta in H. rewrite kept_json_of_notes in H. apply H.
  unfold fallback in Hf. simpl. destruct (notes_file fs); [by left|by right].
Qed.

Lemma restart_no_files fs : fallback fs = None -> restart fs = [].
Proof.
  destruct fs as [c b t]. unfold fallback. simpl.
  destruct c; [done|]. by intros ->.
Qed.

(** Every content the files pass through during a save reads as the
    files did before it (the notes file, or the backup in its place),
    or has the new snapshot as its notes file. *)
Lemma save_notes_exposed_fallback st :
  let r := save_notes st in
  let reads fs := fallback fs = fallback (disk st) \/
                  notes_file fs = Some (snapshot st) in
  exists new, seen r.2 = seen st ++ new /\ Forall reads new /\ reads (disk r.2).
Proof.
  destruct st as [n l [c b t] s cs hs lg].
  destruct c, b; run_save;
    (eexists; split; [cbn; rewrite <- ?app_assoc; try reflexivity;
                      by rewrite app_nil_r|]);
    (split;
     [repeat (apply Forall_cons_2; [cbn; auto|]); apply Forall_nil_2
     |cbn; auto]).
Qed.

(** X5.  A crash during [save_notes] loses at most the save under way:
    when the two files are absent or snapshots of earlier saves, every
    content the files pass through, and the one the save leaves,
    restarts the bot with the notes the files gave before the save or
    with the notes being saved, whatever calls fail. *)
Theorem save_notes_recoverable (st : state) :
  committed (notes_file (disk st)) -> committed (backup_file (disk st)) ->
  wf_dict (notes st) ->
  let r := save_notes st in
  let recovers fs := restart fs = restart (disk st) \/ restart fs = notes st in
  exists new, seen r.2 = seen st ++ new /\ Forall recovers new /\ recovers (disk r.2).
Proof.
  intros Hc Hb Hwf. cbn zeta.
  assert (committed (fallback (disk st))) as Hfb.
  { unfold fallback. by destruct (notes_file (disk st)). }
  assert (forall fs,
    fallback fs = fallback (disk st) \/ notes_file fs = Some (snapshot st) ->
    restart fs = restart (disk st) \/ restart fs = notes st) as Hrec.
  { intros fs [Hf|Hf].
    - left. destruct (fallback (disk st)) as [c|] eqn:E.
      + destruct Hfb as (n & ->).
        by rewrite (restart_fallback fs n), (restart_fallback (disk st) n).
      + by rewrite (restart_no_files fs), (restart_no_files (disk st)).
    - right. rewrite (restart_fallback fs (notes st)); [by apply set_all_nil|].
      unfold fallback. by rewrite Hf. }
  destruct (save_notes_exposed_fallback st) as (new & Hseen & Hall & Hlast).
  exists new. split_and!; [done| |by apply Hrec].
  eapply Forall_impl; [exact Hall|]. exact Hrec.
Qed.

Lemma save_notes_recoverable_witness :
  let st := State [("7", 8)] true
                  (Files (Some (Doc (json_of_notes [("7", 5)]))) None None)
                  [IoOk; IoOk; IoOk; IoOk; IoFail false] [] [] [] in
  exists new, seen (save_notes st).2 = seen st ++ new /\
    Forall (fun fs => restart fs = restart (disk st) \/ restart fs = notes st) new.
Proof.
  cbn zeta.
  destruct (save_notes_recoverable
    (State [("7", 8)] true
           (Files (Some (Doc (json_of_notes [("7", 5)]))) None None)
           [IoOk; IoOk; IoOk; IoOk; IoFail false] [] [] []))
    as (new & Hseen & Hall & _).
  - simpl. by exists [("7", 5)].
  - done.
  - by apply (bool_decide_unpack _).
  - by exists new.
Defined.

(** With a notes file that cannot be read, the save has a moment at
    which neither file is readable: the backup is removed before the
    notes file takes its place. *)
Example save_notes_unreadable_notes_file :
  let backup := Doc (json_of_notes [("7", 5)]) in
  let st := State [("7", 8)] true (Files (Some Malformed) (Some backup) None)
                  [] [] [] [] in
  restart (disk st) = [("7", 5)] /\
  exists fs, fs ∈ seen (save_notes st).2 /\ restart fs = [].
Proof.
  split; [done|].
  exists (Files (Some Malformed) None (Some (Doc (json_of_notes [("7", 8)])))).
  split; [|done]. vm_compute. do 3 right. left.
Qed.

(** X6.  A mutation that logs no error is on disk: on a loaded cog,
    when [add_nyx_notes] or [set_nyx_notes] has left the log as it was,
    a restart loads exactly the notes the cog has in memory, also
    after earlier saves that failed. *)
Theorem mutation_durable (u d v : Z) (st : state) :
  _loaded st = true -> wf_dict (notes st) ->
  let a := (add_nyx_notes u d st).2 in
  let s := (set_nyx_notes u v st).2 in
  (log a = log st -> restart (disk a) = notes a) /\
  (log s = log st -> restart (disk s) = notes s).
Proof.
  intros Hl Hwf. cbn zeta.
  assert (forall k z,
    let st' := (save_notes (with_notes (dict_set (notes st) k z) st)).2 in
    log st' = log st -> restart (disk st') = notes st') as Hsave.
  { intros k z. cbn zeta. intros Hlog.
    pose proof (save_notes_outcome (with_notes (dict_set (notes st) k z) st)) as Ho.
    pose proof (save_notes_frame (with_notes (dict_set (notes st) k z) st)) as Hf.
    cbn zeta in Ho, Hf. destruct Hf as (_ & Hn & _). simpl in Ho, Hn.
    destruct Ho as [(_ & Hfile)|((e & rest & Hfail) & _)].
    - rewrite (restart_fallback _ (dict_set (notes st) k z)).
      + rewrite Hn. apply set_all_nil. by apply dict_set_wf.
      + unfold fallback. by rewrite Hfile.
    - rewrite Hlog in Hfail. by apply app_cons_not_self in Hfail. }
  pose proof (add_nyx_notes_unfold u d st) as Ha.
  pose proof (set_nyx_notes_unfold u v st) as Hs.
  cbn zeta in Ha, Hs. rewrite (ensure_loaded_idem st Hl) in Ha, Hs.
  rewrite Ha, Hs. simpl. split; apply Hsave.
Qed.

Lemma mutation_durable_witness :
  let st := State [("7", 5)] true (Files (Some Torn) None None) [] [] [] [] in
  restart (disk (add_nyx_notes 8 3 st).2) = notes (add_nyx_notes 8 3 st).2.
Proof.
  cbn zeta.
  apply (mutation_durable 8 3 0
    (State [("7", 5)] true (Files (Some Torn) None None) [] [] [] [])).
  - reflexivity.
  - by apply (bool_decide_unpack _).
  - reflexivity.
Defined.

(** X7.  The backup is the state before the last save: after a save
    that meets no error over a notes file that was the snapshot of
    [prev], losing the notes file (it is removed, blank, not JSON or
    not an object) makes a restart load [prev]. *)
Theorem backup_is_previous_save (st : state) (prev : dict Z)
    (lost : option file_data) :
  script st = [] -> wf_dict prev ->
  notes_file (disk st) = Some (Doc (json_of_notes prev)) ->
  unusable lost ->
  let fs := disk (save_notes st).2 in
  backup_file fs = Some (Doc (json_of_notes prev)) /\
  restart (put_file fs NotesFile lost) = prev.
Proof.
  intros Hs Hwf Hf Hlost. cbn zeta.
  destruct (save_notes_ok st Hs) as (Hd & _). rewrite Hd, Hf. simpl.
  split; [done|]. unfold restart.
  pose proof (load_notes_from
    (init (Files lost (Some (Doc (json_of_notes prev))) None) []) _ eq_refl
    (no_overflow_json_of_notes prev)) as H.
  cbn zeta in H. rewrite kept_json_of_notes, set_all_nil in H by done.
  apply H. right. by split.
Qed.

Lemma backup_is_previous_save_witness :
  let st := State [("7", 8)] true
                  (Files (Some (Doc (json_of_notes [("7", 5)]))) None None)
                  [] [] [] [] in
  restart (put_file (disk (save_notes st).2) NotesFile (Some Torn)) = [("7", 5)].
Proof.
  cbn zeta.
  apply (backup_is_previous_save
    (State [("7", 8)] true
           (Files (Some (Doc (json_of_notes [("7", 5)]))) None None)
           [] [] [] []) [("7", 5)] (Some Torn)).
  - reflexivity.
  - by apply (bool_decide_unpack _).
  - reflexivity.
  - exact I.
Defined.

(** ** Loading over a cog that has notes *)

(** The cog without the notes it has in memory. *)
Definition forget (st : state) : state := with_notes [] st.

Lemma load_from_forget p st st' :
  forget st = forget st' ->
  let r := load_from p st in
  let r' := load_from p st' in
  r.1 = r'.1 /\ forget r.2 = forget r'.2 /\ (r.1 = Ok true -> r.2 = r'.2).
Proof.
  destruct st as [n l [c b t] s cs hs lg], st' as [n' l' fs' s' cs' hs' lg'].
  unfold forget, with_notes. simpl. intros [= <- <- <- <- <- <-].
  destruct p;
    match goal with
    | |- context [load_from NotesFile] => destruct c as [[| | |j]|]
    | |- context [load_from BackupFile] => destruct b as [[| | |j]|]
    | |- context [load_from TempFile] => destruct t as [[| | |j]|]
    end;
    try destruct j as [|b0|z0|f0|s0|l0|items];
    unfold load_from; unfold_py; repeat (next_event; cbv beta iota);
    try done;
    match goal with
    | |- context [load_items ?its ?x] =>
        destruct (load_items its x) as [[[]|e] st2]; cbv beta iota;
        try destruct (existsb _ _); done
    end.
Qed.

(** X8.  [load_notes] takes nothing from the cog's memory: what it
    returns and the cog it leaves depend on the files and on the
    environment only, so a load over a cog that has notes the files
    lack drops them. *)
Theorem load_notes_forgets_memory (st : state) (n : dict Z) :
  load_notes (with_notes n st) = load_notes st.
Proof.
  assert (forget (with_notes n st) = forget st) as Hf by (by destruct st).
  revert Hf. generalize (with_notes n st). intros st' Hf.
  unfold load_notes. cbn [load_loop]. unfold bind.
  destruct (load_from_forget NotesFile st' st Hf) as (H1 & H2 & H3).
  destruct (load_from_frame NotesFile st) as (Hr1 & _).
  destruct (load_from NotesFile st') as [r1' st1'], (load_from NotesFile st) as [r1 st1].
  simpl in *. subst r1'. destruct Hr1 as [-> | ->]; [by rewrite H3|].
  destruct (load_from_forget BackupFile st1' st1 H2) as (H4 & H5 & H6).
  destruct (load_from_frame BackupFile st1) as (Hr2 & _).
  destruct (load_from BackupFile st1') as [r2' st2'], (load_from BackupFile st1) as [r2 st2].
  simpl in *. subst r2'. destruct Hr2 as [-> | ->]; [by rewrite H6|].
  unfold ret, modify. f_equal.
  destruct st2', st2. unfold forget, with_notes in H5. simpl in *.
  by injection H5 as -> -> -> -> -> ->.
Qed.

(** X9.  A notes file that cannot be read counts as a damaged one:
    when the read of the notes file raises [OSError], [load_notes]
    raises nothing, logs the error and loads the backup; with no
    usable backup it leaves the notes empty. *)
Theorem load_notes_read_error (st : state) (partial : bool)
    (items : list (string * json)) :
  notes_file (disk st) <> None -> script st = [IoFail partial] ->
  let r := load_notes st in
  r.1 = Ok tt /\
  (backup_file (disk st) = Some (Doc (JObj items)) -> no_overflow items ->
   notes r.2 = set_all [] (kept items) /\
   log r.2 = log st ++ [ErrLoadFailed NotesFile OSError] ++ dropped items) /\
  (unusable (backup_file (disk st)) ->
   notes r.2 = [] /\
   exists more, log r.2 = log st ++ ErrLoadFailed NotesFile OSError :: more).
Proof.
  destruct st as [n l [c b t] s cs hs lg]. simpl. intros Hc ->.
  destruct c as [c|]; [clear Hc|done].
  set (st1 := State n l (Files (Some c) b t) [] (cs ++ [ReadText NotesFile]) hs
                    (lg ++ [ErrLoadFailed NotesFile OSError])).
  assert (load_from NotesFile
            (State n l (Files (Some c) b t) [IoFail partial] cs hs lg)
          = (Ok false, st1)) as Hfirst by done.
  destruct (load_notes_frame
    (State n l (Files (Some c) b t) [IoFail partial] cs hs lg)) as (Hok & _).
  split; [exact Hok|]. clear Hok.
  unfold load_notes. cbn [load_loop]. unfold bind. rewrite Hfirst.
  split.
  - intros Hb Hov.
    rewrite (load_from_doc BackupFile st1 items eq_refl Hb Hov).
    subst st1. cbn. by rewrite <- app_assoc.
  - intros Hu. subst st1.
    destruct b as [[| | |j]|]; try destruct j as [|b0|z0|f0|s0|l0|its];
      simpl in Hu; try done;
      unfold load_from; unfold_py; cbn;
      (split; [done|eexists; rewrite <- ?app_assoc; reflexivity]).
Qed.

Lemma load_notes_read_error_witness :
  let backup := Doc (json_of_notes [("7", 5)]) in
  let st := init (Files (Some (Doc (json_of_notes [("7", 8)]))) (Some backup) None)
                 [IoFail false] in
  (load_notes st).1 = Ok tt /\ notes (load_notes st).2 = [("7", 5)].
Proof.
  cbn zeta.
  destruct (load_notes_read_error
    (init (Files (Some (Doc (json_of_notes [("7", 8)])))
                 (Some (Doc (json_of_notes [("7", 5)]))) None) [IoFail false])
    false [("7", JInt 5)]) as (H1 & H2 & _); [done|done|].
  split; [exact H1|]. apply H2; [done|].
  apply Forall_cons_2; [done|apply Forall_nil_2].
Defined.

(* ================================================================== *)
(** * The [!leaderboard] command                                       *)
(* ================================================================== *)

Section LeaderboardFacts.
Import MemoryCommands.
Variable ctx : context.

Lemma get_leaderboard_run limit st :
  get_leaderboard limit st
  = (match int_keys (notes (ensure_loaded st).2) with
     | Ok pairs => Ok (slice_to (sorted_desc snd pairs) limit)
     | Raise e => Raise e
     end, (ensure_loaded st).2).
Proof.
  unfold get_leaderboard, bind, gets, lift, ret.
  destruct (ensure_loaded_frame st) as (H1 & _).
  destruct (ensure_loaded st) as [r st1]. simpl in *. subst r.
  by destruct (int_keys (notes st1)).
Qed.

(** The limit the command passes to [get_leaderboard]. *)
Definition passed (limit : Z) : Z :=
  if Z.ltb 20 limit then 20 else if Z.ltb limit 1 then 10 else limit.

Lemma passed_range limit : 1 <= passed limit <= 20.
Proof. unfold passed. destruct (Z.ltb_spec 20 limit), (Z.ltb_spec limit 1); lia. Qed.

(** The reply, from the rows [get_leaderboard] returns. *)
Definition reply_of (rows : list (Z * Z)) : board_reply :=
  match rows with
  | [] => NoUsersFound
  | _ => Board (description_lines ctx 1 rows)
  end.

Lemma show_leaderboard_run limit st :
  show_leaderboard ctx limit st
  = (match int_keys (notes (ensure_loaded st).2) with
     | Ok pairs => Ok (reply_of (take (Z.to_nat (passed limit)) (sorted_desc snd pairs)))
     | Raise e => Ok (ErrorRetrievingLeaderboard e)
     end, (ensure_loaded st).2).
Proof.
  unfold show_leaderboard, try_except, bind. fold (passed limit).
  rewrite get_leaderboard_run.
  destruct (int_keys (notes (ensure_loaded st).2)) as [pairs|e]; [|done].
  rewrite slice_to_nonneg by (pose proof (passed_range limit); lia).
  unfold reply_of. by destruct (take _ _).
Qed.

Lemma description_lines_lookup rows : forall i k l,
  1 <= i -> description_lines ctx i rows !! k = Some l ->
  exists p, rows !! k = Some p /\
            l = Line (medal_of (i + Z.of_nat k)) (display_name ctx p.1) p.2.
Proof.
  induction rows as [|[u b] rows IH]; intros i k l Hi; simpl; [done|].
  destruct (Z.leb 10 i).
  - destruct k as [|k]; simpl; [|done]. intros [= <-].
    exists (u, b). by rewrite Z.add_0_r.
  - destruct k as [|k]; simpl.
    + intros [= <-]. exists (u, b). by rewrite Z.add_0_r.
    + intros H. apply IH in H as (p & Hp & ->); [|lia].
      exists p. split; [done|]. do 2 f_equal. lia.
Qed.

Lemma description_lines_length rows : forall i,
  1 <= i <= 10 ->
  length (description_lines ctx i rows)
  = Nat.min (length rows) (Z.to_nat (11 - i)).
Proof.
  induction rows as [|[u b] rows IH]; intros i Hi; simpl; [done|].
  destruct (Z.leb_spec 10 i).
  - simpl. replace (Z.to_nat (11 - i)) with 1%nat by lia. lia.
  - simpl. rewrite IH by lia.
    replace (Z.to_nat (11 - i)) with (S (Z.to_nat (11 - (i + 1)))) by lia. lia.
Qed.

Lemma description_lines_take rows : forall i n,
  1 <= i <= 10 -> (Z.to_nat (11 - i) <= n)%nat ->
  description_lines ctx i (take n rows) = description_lines ctx i rows.
Proof.
  induction rows as [|[u b] rows IH]; intros i n Hi Hn; [by destruct n|].
  destruct n as [|n]; [lia|]. simpl.
  destruct (Z.leb_spec 10 i); [done|].
  f_equal. apply IH; lia.
Qed.

(** X10.  [!leaderboard] shows ten rows at most: the loop leaves after
    the tenth row, so a limit of ten or more, and a limit below one,
    give the reply of [!leaderboard 10]; the embed has as many lines as
    the store has users, up to the limit and up to ten. *)
Theorem show_leaderboard_ten_rows (limit : Z) (st : state) :
  let r := show_leaderboard ctx limit st in
  let shown := if Z.ltb limit 1 then 10 else Z.min limit 10 in
  (limit < 1 \/ 10 <= limit -> r = show_leaderboard ctx 10 st) /\
  (forall lines, r.1 = Ok (Board lines) ->
     length lines
     = Nat.min (Z.to_nat shown) (length (notes (ensure_loaded st).2))).
Proof.
  cbn zeta. rewrite !show_leaderboard_run.
  destruct (int_keys (notes (ensure_loaded st).2)) as [pairs|e] eqn:E;
    [|split; [done|by intros lines [= ?]]].
  assert (length pairs = length (notes (ensure_loaded st).2)) as Hlen.
  { clear -E. revert pairs E.
    induction (notes (ensure_loaded st).2) as [|[k v] n IH]; intros pairs; simpl.
    - by intros [= <-].
    - destruct (int_str k); [|done]. destruct (int_keys n); [|done].
      intros [= <-]. simpl. f_equal. by apply IH. }
  pose proof (passed_range limit) as Hp.
  pose proof (sorted_desc_length snd pairs) as Hs.
  assert (forall n, (10 <= n)%nat ->
    reply_of (take n (sorted_desc snd pairs))
    = reply_of (take 10 (sorted_desc snd pairs))) as Hten.
  { intros n Hn. unfold reply_of.
    destruct (sorted_desc snd pairs) as [|p rows]; [by destruct n|].
    destruct n as [|n]; [lia|]. cbn [take].
    change (take 10 (p :: rows)) with (p :: take 9 rows).
    cbn [description_lines]. cbn. do 2 f_equal.
    rewrite !description_lines_take by lia. done. }
  split.
  - intros Hl. simpl. do 2 f_equal.
    change (Z.to_nat (passed 10)) with 10%nat. apply Hten.
    unfold passed. destruct (Z.ltb_spec 20 limit), (Z.ltb_spec limit 1); lia.
  - clear Hten. simpl. intros lines. unfold reply_of.
    destruct (take _ _) as [|p rows] eqn:Et; [done|]. intros Hr.
    assert (lines = description_lines ctx 1 (p :: rows)) as -> by congruence.
    rewrite description_lines_length by lia. rewrite <- Et, length_take, Hs, <- Hlen.
    unfold passed. destruct (Z.ltb_spec 20 limit), (Z.ltb_spec limit 1); lia.
Qed.

(** X11.  What [!leaderboard] replies.  It raises nothing.  It sends
    the error text exactly when a key of the store is not a
    decimal-integer string, the exception logged being the
    [ValueError] of [int]; it sends the embed without users exactly
    when the store is empty; and line [k] of the embed has the medal
    of rank [k + 1] and the points of row [k] of [get_leaderboard],
    with the name ["Unknown User"] for a user the cache does not
    have. *)
Theorem show_leaderboard_reply (limit : Z) (st : state) :
  let n := notes (ensure_loaded st).2 in
  exists reply,
    (show_leaderboard ctx limit st).1 = Ok reply /\
    ((exists e, reply = ErrorRetrievingLeaderboard e) <->
     exists k, k ∈ n.*1 /\ ~ decimal k) /\
    (forall e, reply = ErrorRetrievingLeaderboard e -> e = ValueError) /\
    (reply = NoUsersFound <-> n = []) /\
    (forall lines k l, reply = Board lines -> lines !! k = Some l ->
       line_medal l = medal_of (Z.of_nat k + 1) /\
       exists rows u,
         (get_leaderboard (passed limit) st).1 = Ok rows /\
         rows !! k = Some (u, line_points l) /\
         line_name l = display_name ctx u /\
         (get_user ctx u = Ok None -> line_name l = "Unknown User")).
Proof.
  cbn zeta. rewrite show_leaderboard_run, get_leaderboard_run. simpl.
  destruct (int_keys (notes (ensure_loaded st).2)) as [pairs|e] eqn:E.
  - eexists. split; [done|].
    assert (Forall decimal (notes (ensure_loaded st).2).*1) as Hdec.
    { clear -E. revert pairs E.
      induction (notes (ensure_loaded st).2) as [|[k v] n IH]; intros pairs; simpl.
      - intros _. apply Forall_nil_2.
      - destruct (int_str k) as [z|] eqn:Ek; [|done].
        destruct (int_keys n); [|done]. intros _.
        apply Forall_cons_2; [by exists z|by eapply IH]. }
    assert (pairs = [] <-> notes (ensure_loaded st).2 = []) as Hnil.
    { clear -E. destruct (notes (ensure_loaded st).2) as [|[k v] n]; simpl in E.
      - by injection E as <-.
      - destruct (int_str k); [|done]. destruct (int_keys n); [|done].
        by injection E as <-. }
    pose proof (passed_range limit) as Hp.
    assert (take (Z.to_nat (passed limit)) (sorted_desc snd pairs) = []
            <-> pairs = []) as Htake.
    { pose proof (sorted_desc_length snd pairs) as Hs.
      split.
      - intros Ht. apply (f_equal length) in Ht.
        rewrite length_take, Hs in Ht. simpl in Ht.
        destruct pairs; [done|]. simpl in Ht. lia.
      - intros ->. apply take_nil. }
    split_and!.
    + split.
      * intros (e & He). unfold reply_of in He. by destruct (take _ _).
      * intros (k & Hk & Hnd). rewrite Forall_forall in Hdec. by apply Hdec in Hk.
    + intros e He. unfold reply_of in He. by destruct (take _ _).
    + rewrite <- Hnil, <- Htake. unfold reply_of. by destruct (take _ _).
    + intros lines k l Hr Hl. unfold reply_of in Hr.
      destruct (take _ _) as [|p rows] eqn:Et; [done|].
      assert (lines = description_lines ctx 1 (p :: rows)) as -> by congruence.
      apply description_lines_lookup in Hl as ([u b] & Hrow & ->); [|lia].
      simpl. split; [f_equal; lia|].
      exists (slice_to (sorted_desc snd pairs) (passed limit)), u.
      rewrite slice_to_nonneg, Et by lia. split_and!; try done.
      intros Hu. unfold display_name. by rewrite Hu.
  - eexists. split; [done|].
    pose proof E as Hraise.
    assert (e = ValueError) as ->.
    { clear -E. revert E.
      induction (notes (ensure_loaded st).2) as [|[k v] n IH]; simpl; [done|].
      destruct (int_str k) as [z|e'] eqn:Ek.
      - destruct (int_keys n); [done|]. intros [= ->]. by apply IH.
      - intros [= <-]. by apply int_str_raises in Ek. }
    split_and!; try done.
    + split; [intros _|by eexists].
      clear -E. revert E.
      induction (notes (ensure_loaded st).2) as [|[k v] n IH]; simpl; [done|].
      destruct (int_str k) as [z|e'] eqn:Ek.
      * destruct (int_keys n) eqn:En; [done|]. intros [= ->].
        destruct IH as (k' & Hk' & Hnd); [done|].
        exists k'. split; [by right|done].
      * intros _. exists k. split; [by left|]. intros (z & Hz). congruence.
    + by intros e [= <-].
    + split; [done|]. intros Hn. by rewrite Hn in E.
Qed.

End LeaderboardFacts.

(* ================================================================== *)
(** * The points of an unscramble game                                 *)
(* ================================================================== *)

Section UnscrambleFacts.
Import Unscramble.

(** The balance a user has after the award of [words_found] words. *)
Definition awarded (b words_found : Z) : Z :=
  if Z.ltb 0 words_found
  then Z.max 0 (b + words_found * NYX_NOTES_PER_CORRECT)
  else b.

Lemma award_each_spec scores : forall st,
  NoDup scores.*1 ->
  let r := award_each scores st in
  r.1 = Ok tt /\
  (forall u w, (u, w) ∈ scores -> balance r.2 u = awarded (balance st u) w) /\
  (forall u, u ∉ scores.*1 -> balance r.2 u = balance st u).
Proof.
  induction scores as [|[u0 w0] scores IH]; intros st Hnd.
  - split_and!; [done| |done]. intros u w H. by apply not_elem_of_nil in H.
  - rewrite fmap_cons in Hnd. apply NoDup_cons in Hnd as [Hu0 Hnd]. simpl in Hu0.
    pose (head :=
      (if Z.ltb 0 w0
       then try_except
              (add_nyx_notes u0 (w0 * NYX_NOTES_PER_CORRECT);; ret tt)
              (fun _ => ret tt)
       else ret tt) st).
    assert (head.1 = Ok tt /\
            balance head.2 u0 = awarded (balance st u0) w0 /\
            forall u, u <> u0 -> balance head.2 u = balance st u) as (H1 & H2 & H3).
    { subst head. unfold awarded. destruct (Z.ltb 0 w0).
      - unfold try_except, bind, ret.
        pose proof (add_nyx_notes_unfold u0 (w0 * NYX_NOTES_PER_CORRECT) st) as Hu.
        cbn zeta in Hu.
        pose proof (add_nyx_notes_balance u0 (w0 * NYX_NOTES_PER_CORRECT) st) as Hb.
        pose proof (fun u Hne =>
          add_nyx_notes_other u0 u (w0 * NYX_NOTES_PER_CORRECT) st Hne) as Ho.
        destruct (add_nyx_notes u0 (w0 * NYX_NOTES_PER_CORRECT) st) as [r st1].
        injection Hu as -> _. simpl in *. split_and!; [done|done|].
        intros u Hne. apply Ho. congruence.
      - by split_and!. }
    assert (award_each ((u0, w0) :: scores) st = award_each scores head.2) as Hstep.
    { cbn [award_each]. unfold bind at 1. fold head.
      destruct head as [r1 st1]. simpl in *. by subst r1. }
    cbn zeta. rewrite Hstep.
    destruct (IH head.2 Hnd) as (H4 & H5 & H6).
    split_and!; [done| |].
    + intros u w Hin. apply elem_of_cons in Hin as [[= -> ->]|Hin].
      * by rewrite H6, H2.
      * rewrite (H5 u w Hin), H3; [done|].
        intros ->. apply Hu0. apply list_elem_of_fmap. by exists (u0, w).
    + intros u Hu. rewrite fmap_cons in Hu. apply not_elem_of_cons in Hu as [Hne Hu].
      by rewrite H6, H3.
Qed.

(** X12.  [award_game_points] raises nothing and pays each user of
    [user_scores] once: a user who found [w > 0] words gets
    [w * NYX_NOTES_PER_CORRECT] points on top of their balance, a user
    with no word and every user who did not play keep theirs, whatever
    the saves do. *)
Theorem award_game_points_pays (user_scores : option (list (Z * Z)))
    (st : state) :
  (forall scores, user_scores = Some scores -> NoDup scores.*1) ->
  let r := award_game_points user_scores st in
  r.1 = Ok tt /\
  forall u,
    balance r.2 u =
      match user_scores with
      | Some scores =>
          match list_find (fun uw => uw.1 = u) scores with
          | Some (_, (_, w)) => awarded (balance st u) w
          | None => balance st u
          end
      | None => balance st u
      end.
Proof.
  intros Hnd. cbn zeta. unfold award_game_points, try_except.
  destruct user_scores as [[|[u0 w0] scores]|]; [by split| |by split].
  destruct (award_each_spec ((u0, w0) :: scores) st (Hnd _ eq_refl))
    as (H1 & H2 & H3).
  destruct (award_each ((u0, w0) :: scores) st) as [r st1].
  cbn [fst snd] in *. subst r. split; [done|]. intros u.
  destruct (list_find (fun uw => uw.1 = u) ((u0, w0) :: scores))
    as [[i [u' w]]|] eqn:Ef.
  - apply list_find_Some in Ef as (Hi & Hu & _). simpl in Hu. subst u'.
    apply H2. by eapply list_elem_of_lookup_2.
  - apply H3. intros Hin. apply list_elem_of_fmap in Hin as ([u' w] & -> & Hin).
    eapply list_find_None in Ef. rewrite Forall_forall in Ef. by apply (Ef (u', w)).
Qed.

Lemma award_game_points_pays_witness :
  let st := State [("7", 5); ("9", 1)] true no_files [IoFail false] [] [] [] in
  let r := award_game_points (Some [(7, 3); (8, 0); (10, 1)]) st in
  r.1 = Ok tt /\ balance r.2 7 = 20 /\ balance r.2 8 = 0 /\ balance r.2 9 = 1 /\
  balance r.2 10 = 5.
Proof.
  cbn zeta.
  destruct (award_game_points_pays (Some [(7, 3); (8, 0); (10, 1)])
    (State [("7", 5); ("9", 1)] true no_files [IoFail false] [] [] []))
    as (H1 & H2).
  - intros scores [= <-]. by apply (bool_decide_unpack _).
  - split; [exact H1|]. by rewrite !H2.
Defined.

End UnscrambleFacts.

(* ================================================================== *)
(** * The life of a session                                            *)
(* ================================================================== *)

Section AsylumSessionsFacts.
Import AsylumChat AsylumSessions.

Implicit Types (sessions : registry) (channel author now : Z).

(** Two channels never share a key. *)
Lemma session_key_inj channel channel' :
  session_key channel = session_key channel' -> channel = channel'.
Proof.
  unfold session_key. simpl. intros [= H]. by apply str_int_inj.
Qed.

Lemma mode_map_Some selection m :
  mode_map selection = Some m <->
  (selection, m) ∈ [("1", "default"); ("2", "best_friend");
                    ("3", "psych_analyst"); ("4", "rage_debater")].
Proof.
  unfold mode_map. split.
  - rewrite !elem_of_cons.
    repeat match goal with
           | |- context [String.eqb selection ?x] =>
               destruct (String.eqb_spec selection x) as [->|?];
               [intros [= <-]; auto 6|]
           end.
    done.
  - intros H. repeat (apply elem_of_cons in H as [[= -> ->]|H]; [done|]).
    by apply not_elem_of_nil in H.
Qed.

(** X13.  Choosing a mode.  A message in a channel with a record is
    taken as a choice exactly when its text, stripped of surrounding
    whitespace, is one of [1] to [4]; the record then is in the state
    [active_chat] with the mode chosen and has kept everything else,
    its [active] flag and its messages among it; any other text leaves
    the sessions as they are.  No record of another key is touched,
    and the start command answers after the message as it did
    before. *)
Theorem process_mode_selection_spec channel author now (content : string)
    sessions (s : session) :
  sessions !! session_key channel = Some s ->
  let key := session_key channel in
  let selection := str_strip content in
  let r := process_mode_selection channel content sessions in
  (forall m, r.1 = Welcome m <->
     (selection, m) ∈ [("1", "default"); ("2", "best_friend");
                       ("3", "psych_analyst"); ("4", "rage_debater")]) /\
  (forall m, r.1 = Welcome m ->
     r.2 !! key = Some (Session (type s) (channel_id s) "active_chat" (active s)
                                (started_at s) (messages s) (Some m)
                                (initiator s))) /\
  ((forall m, r.1 <> Welcome m) -> r.1 = TypeANumber /\ r.2 = sessions) /\
  (forall k, k <> key -> r.2 !! k = sessions !! k) /\
  (asylumchat channel author now r.2).1 = (asylumchat channel author now sessions).1.
Proof.
  intros Hs. cbn zeta. unfold process_mode_selection. rewrite Hs.
  pose proof (mode_map_Some (str_strip content)) as Hm.
  destruct (mode_map _) as [m0|]; cbn [fst snd].
  - split_and!.
    + intros m. rewrite <- Hm. split; congruence.
    + intros m [= <-]. by rewrite lookup_insert_eq.
    + intros H. by destruct (H m0).
    + intros k Hk. by rewrite lookup_insert_ne.
    + unfold asylumchat, asylumchat_guard, asylumchat_create.
      destruct (negb _); [done|].
      rewrite lookup_insert_eq, Hs. simpl. by destruct (active s).
  - split_and!; try done.
    intros m. rewrite <- Hm. split; congruence.
Qed.

(** The whitespace [strip] removes is that of Unicode: a no-break space
    before the digit and an em space after it go as blanks do, and so
    do the separators 28 to 31, which [int] would not skip. *)
Example process_mode_selection_unicode_space :
  let s := new_session 1388158646973632685 7 0 in
  let sessions : registry := {[ session_key 1388158646973632685 := s ]} in
  let nbsp := String (ascii_of_nat 194) (String (ascii_of_nat 160) EmptyString) in
  let em := String (ascii_of_nat 226) (String (ascii_of_nat 128)
              (String (ascii_of_nat 131) EmptyString)) in
  let us := String (ascii_of_nat 31) EmptyString in
  (process_mode_selection 1388158646973632685
     (String.append nbsp (String.append "1" em)) sessions).1 = Welcome "default" /\
  (process_mode_selection 1388158646973632685
     (String.append us "3") sessions).1 = Welcome "psych_analyst" /\
  (process_mode_selection 1388158646973632685 "1." sessions).1 = TypeANumber.
Proof.
  cbn zeta. unfold process_mode_selection.
  rewrite lookup_singleton_eq. by vm_compute.
Qed.

Lemma process_mode_selection_spec_witness :
  let s := new_session 1388158646973632685 7 0 in
  let sessions : registry := {[ session_key 1388158646973632685 := s ]} in
  let r := process_mode_selection 1388158646973632685 " 2 " sessions in
  r.1 = Welcome "best_friend" /\
  (asylumchat 1388158646973632685 8 1 r.2).1 = ActiveSession.
Proof.
  cbn zeta.
  destruct (process_mode_selection_spec 1388158646973632685 8 1 " 2 "
    {[ session_key 1388158646973632685 := new_session 1388158646973632685 7 0 ]}
    (new_session 1388158646973632685 7 0)) as (H1 & _ & _ & _ & H5).
  - by rewrite lookup_singleton_eq.
  - split.
    + apply H1. rewrite !elem_of_cons. auto.
    + rewrite H5. unfold asylumchat, asylumchat_guard. simpl.
      by rewrite lookup_singleton_eq.
Defined.

(** X14.  Ending a session.  In an asylum channel [!endasylumchat]
    answers [SessionEnded] exactly when the channel has a record
    flagged active, and then that record is gone; otherwise the
    sessions stay as they are, a record not flagged active included.
    A second [!endasylumchat] finds no active session, and after an
    end the start command is accepted.  Ending right after a start
    leaves the sessions without the channel's record, whatever they
    held. *)
Theorem endasylumchat_spec channel author now sessions :
  allowed channel ->
  let key := session_key channel in
  let has_active := exists s, sessions !! key = Some s /\ active s = true in
  let r := endasylumchat channel sessions in
  (r.1 = SessionEnded <-> has_active) /\
  (r.1 = SessionEnded -> r.2 = delete key sessions) /\
  (r.1 <> SessionEnded -> r.1 = NoActiveSession /\ r.2 = sessions) /\
  endasylumchat channel r.2 = (NoActiveSession, r.2) /\
  (asylumchat channel author now r.2).1 = ChoosePersona /\
  endasylumchat channel (asylumchat channel author now sessions).2
    = (SessionEnded, delete key sessions).
Proof.
  intros Ha. apply allowed_existsb in Ha. cbn zeta.
  unfold endasylumchat, asylumchat, asylumchat_guard, asylumchat_create,
    end_asylum_session. rewrite Ha. cbn [negb].
  destruct (sessions !! session_key channel) as [s|] eqn:E;
    [destruct (active s) eqn:Ea|]; cbn [fst snd];
    rewrite ?lookup_delete_eq, ?E, ?Ea, ?lookup_insert_eq; cbn [active new_session fst snd];
    rewrite ?lookup_delete_eq, ?E, ?Ea, ?lookup_insert_eq; cbn [active new_session fst snd];
    split_and!; try done; try (by intros []);
    try (split; [by eauto|done]);
    try (split; [done|]; intros (s' & Hs' & Ha'); congruence);
    try (by rewrite delete_insert_eq).
Qed.

Lemma endasylumchat_spec_witness :
  let sessions : registry :=
    {[ session_key 1388158646973632685 := new_session 1388158646973632685 7 0 ]} in
  (endasylumchat 1388158646973632685 sessions).1 = SessionEnded /\
  (endasylumchat 1388158646973632685 sessions).2 = ∅.
Proof.
  cbn zeta.
  destruct (endasylumchat_spec 1388158646973632685 7 0
    {[ session_key 1388158646973632685 := new_session 1388158646973632685 7 0 ]})
    as (H1 & H2 & _).
  - unfold allowed, ASYLUM_CHANNEL_IDS. by left.
  - assert ((endasylumchat 1388158646973632685
      {[ session_key 1388158646973632685 := new_session 1388158646973632685 7 0 ]}).1
      = SessionEnded) as H.
    { apply H1. eexists. by rewrite lookup_singleton_eq. }
    split; [exact H|]. rewrite (H2 H). apply delete_singleton_eq.
Defined.

(** X15.  The sessions of two channels are independent: the start
    command, a choice of mode, the end command and the end of a
    session in one channel leave the record of every other channel as
    it is. *)
Theorem sessions_independent channel channel' author now (content : string)
    sessions :
  channel <> channel' ->
  let other := session_key channel' in
  (asylumchat channel author now sessions).2 !! other = sessions !! other /\
  (process_mode_selection channel content sessions).2 !! other = sessions !! other /\
  (endasylumchat channel sessions).2 !! other = sessions !! other /\
  end_asylum_session channel sessions !! other = sessions !! other.
Proof.
  intros Hne. cbn zeta.
  assert (session_key channel <> session_key channel') as Hk
    by (intros H; by apply session_key_inj in H).
  unfold asylumchat, asylumchat_guard, asylumchat_create,
    process_mode_selection, endasylumchat, end_asylum_session.
  destruct (negb _); destruct (sessions !! session_key channel) as [s|];
    try destruct (active s); try destruct (mode_map _); cbn [fst snd];
    rewrite ?lookup_insert_ne, ?lookup_delete_ne by done; done.
Qed.

Lemma sessions_independent_witness :
  let sessions : registry :=
    {[ session_key 1388397019479146580 := new_session 1388397019479146580 7 0 ]} in
  (asylumchat 1388158646973632685 8 1 sessions).2
    !! session_key 1388397019479146580
  = Some (new_session 1388397019479146580 7 0).
Proof.
  cbn zeta.
  destruct (sessions_independent 1388158646973632685 1388397019479146580 8 1 "1"
    {[ session_key 1388397019479146580 := new_session 1388397019479146580 7 0 ]})
    as (H & _); [lia|].
  rewrite H. by rewrite lookup_singleton_eq.
Defined.

End AsylumSessionsFacts.

(* ================================================================== *)
(** * The lock: every call returns                                     *)
(* ================================================================== *)

Section TasksProgress.
Import Tasks.

(** The statements the calls under way have left. *)
Definition remaining (p : list task) : nat :=
  foldr (fun t acc => (length (code t) + acc)%nat) 0%nat p.

Lemma remaining_insert p : forall i t t',
  p !! i = Some t ->
  (remaining (<[i := t']> p) + length (code t) = remaining p + length (code t'))%nat.
Proof.
  induction p as [|t0 p IH]; intros [|i] t t' Hi; try done; simpl in *.
  - injection Hi as ->. lia.
  - pose proof (IH i t t' Hi). lia.
Qed.

Lemma remaining_spawn (calls : list (Z * list instr)) :
  Forall (fun call => exists d, call.2 = add_code d \/ call.2 = set_code d) calls ->
  remaining (spawn <$> calls) = (7 * length calls)%nat.
Proof.
  induction 1 as [|call calls (d & Hd) _ IH]; [done|].
  rewrite fmap_cons. cbn [remaining foldr]. fold (remaining (spawn <$> calls)).
  rewrite IH. simpl. destruct Hd as [-> | ->]; simpl; lia.
Qed.

Lemma remaining_finished p : remaining p = 0%nat <-> Forall (fun t => code t = []) p.
Proof.
  induction p as [|t p IH]; simpl.
  - split; [intros _; apply Forall_nil_2|done].
  - split.
    + intros H. apply Forall_cons_2.
      * destruct (code t); [done|simpl in H; lia].
      * apply IH. lia.
    + intros H. apply Forall_cons in H as [-> H]. apply IH in H.
      fold (remaining p). rewrite H. done.
Qed.

Lemma remaining_unfinished p :
  remaining p <> 0%nat -> exists i t, p !! i = Some t /\ code t <> [].
Proof.
  induction p as [|t p IH]; simpl; [done|]. intros H.
  destruct (code t) as [|ins rest] eqn:E.
  - destruct IH as (i & t' & Hi & Ht'); [simpl in H; exact H|].
    by exists (S i), t'.
  - exists 0%nat, t. split; [done|]. by rewrite E.
Qed.

Lemma step_pool i c c' :
  step i c = Some c' ->
  exists t ins rest t',
    pool c !! i = Some t /\ code t = ins :: rest /\
    pool c' = <[i := t']> (pool c) /\ code t' = rest /\
    (forall j, owner c' = Some j -> owner c = Some j \/ j = i).
Proof.
  unfold step. destruct (pool c !! i) as [t|] eqn:Hi; [|done].
  destruct (code t) as [|ins rest] eqn:Hcode; [done|].
  destruct ins; simpl;
    try destruct (owner c) eqn:Ho; try case_bool_decide; try done;
    try destruct (saves c) as [|ok later];
    intros [= <-]; eexists t, _, rest, _; simpl;
    (split_and!;
     [done|done|reflexivity|reflexivity
     |intros j Hj; simpl in Hj; first [by left|right; congruence]]).
Qed.

(** The lock is held by a call under way. *)
Definition owner_valid (c : config) : Prop :=
  forall i, owner c = Some i -> (i < length (pool c))%nat.

Lemma run_owner_valid schedule : forall c c',
  owner_valid c -> run schedule c = Some c' ->
  owner_valid c' /\
  (remaining (pool c) = length schedule + remaining (pool c'))%nat.
Proof.
  induction schedule as [|i schedule IH]; intros c c' Hc Hrun; simpl in Hrun.
  - by injection Hrun as <-.
  - destruct (step i c) as [c1|] eqn:Hstep; [|done].
    destruct (step_pool i c c1 Hstep) as (t & ins & rest & t' & Hi & Ht & Hp & Ht' & Ho).
    assert (owner_valid c1) as Hc1.
    { intros j Hj. rewrite Hp, length_insert.
      destruct (Ho j Hj) as [H| ->]; [by apply Hc|by eapply lookup_lt_Some]. }
    destruct (IH c1 c' Hc1 Hrun) as (Hv & Hrem). split; [done|].
    pose proof (remaining_insert (pool c) i t t' Hi) as Hins.
    rewrite <- Hp, Ht, Ht' in Hins. simpl in *. lia.
Qed.

(** X16.  The calls never block one another for good.  However the
    calls of [add_nyx_notes] and [set_nyx_notes] have been interleaved,
    and whichever of their saves have failed, either all of them have
    returned or one of them can run its next statement: a mutation
    leaves its block before [save_notes] takes the lock, which cannot
    be taken twice, and a save that fails leaves its block as one that
    goes through.  Every statement run is one of the seven of a call,
    so the calls have all returned after exactly seven statements
    each. *)
Theorem mutations_never_deadlock (n0 : dict Z) (calls : list (Z * list instr))
    (outcomes : list bool) (schedule : list nat) (c : config) :
  Forall (fun call => exists d, call.2 = add_code d \/ call.2 = set_code d) calls ->
  run schedule (start n0 calls outcomes) = Some c ->
  (finished c \/ exists i c', step i c = Some c') /\
  (length schedule + remaining (pool c) = 7 * length calls)%nat /\
  (finished c <-> length schedule = (7 * length calls)%nat).
Proof.
  intros Hcalls Hrun.
  assert (coherent (start n0 calls outcomes)) as Hc0.
  { apply start_coherent. eapply Forall_impl; [exact Hcalls|].
    intros call. apply mutation_fits. }
  pose proof (run_coherent _ _ _ Hc0 Hrun) as Hc.
  assert (owner_valid (start n0 calls outcomes)) as Hv0 by (by intros i).
  destruct (run_owner_valid _ _ _ Hv0 Hrun) as (Hv & Hrem).
  simpl in Hrem. rewrite (remaining_spawn calls Hcalls) in Hrem.
  assert (finished c <-> remaining (pool c) = 0%nat) as Hfin
    by (symmetry; apply remaining_finished).
  split_and!; [|lia|rewrite Hfin; lia].
  destruct (decide (remaining (pool c) = 0%nat)) as [H0|Hne]; [left; by apply Hfin|].
  right. destruct (owner c) as [o|] eqn:Ho.
  - (* the owner of the lock is inside a block, and goes on *)
    destruct (lookup_lt_is_Some_2 (pool c) o (Hv o Ho)) as (t & Ht).
    destruct (Hc o t Ht) as (ph & Hfits & Hown & _).
    assert (ph <> Outside) as Hph by (by apply Hown).
    exists o. unfold step. rewrite Ht, Ho.
    destruct (code t) as [|[]], ph; simpl in Hfits; try done;
      try (rewrite bool_decide_eq_true_2 by done);
      try destruct (saves c); by eexists.
  - (* the lock is free, and a call that has not returned takes it *)
    destruct (remaining_unfinished _ Hne) as (i & t & Ht & Hcode).
    destruct (Hc i t Ht) as (ph & Hfits & Hown & _).
    assert (ph = Outside) as ->.
    { destruct ph; [done| |]; exfalso;
        (assert (owner c = Some i) as Hoi by (by apply Hown)); congruence. }
    exists i. unfold step. rewrite Ht, Ho.
    destruct (code t) as [|[]]; simpl in Hfits; try done. by eexists.
Qed.

Lemma mutations_never_deadlock_witness :
  let calls := [(7, add_code 5); (7, set_code 3); (8, add_code 1)] in
  exists c, run [0; 1; 0; 0; 0]%nat (start [] calls [false]) = None /\
            run [0; 0; 0; 0; 1]%nat (start [] calls [false]) = Some c /\
            (finished c \/ exists i c', step i c = Some c').
Proof.
  cbn zeta.
  destruct (run [0; 0; 0; 0; 1]%nat
              (start [] [(7, add_code 5); (7, set_code 3); (8, add_code 1)] [false]))
    as [c|] eqn:Hrun; [|by vm_compute in Hrun].
  exists c. split; [by vm_compute|]. split; [done|].
  eapply (mutations_never_deadlock []
    [(7, add_code 5); (7, set_code 3); (8, add_code 1)] [false]
    [0; 0; 0; 0; 1]%nat c).
  - apply Forall_cons_2; [exists 5; by left|].
    apply Forall_cons_2; [exists 3; by right|].
    apply Forall_cons_2; [exists 1; by left|apply Forall_nil_2].
  - exact Hrun.
Defined.

End TasksProgress.
